(** * Retail-analytics copilot: the hybrid RAG + SQL agent

    A shallow embedding of [agent/graph_hybrid.py], [agent/dspy_signatures.py]
    and [agent/tools/sqlite_tool.py], and the properties of the workflow, the
    answer parser, the confidence score and the router that the specification
    states.

    Conventions of the embedding.
    - A Python [str] is a [string]: the text is taken to be ASCII, so that
      [lower], [upper], [strip] and the classes [\d], [\s], [\w] are the
      ASCII ones.
    - A Python [float] is an exact rational ([Q]); [round(x, 2)] rounds half
      to even on the exact value.
    - A counter that the code only resets to 0 and increments is a [nat].
    - The language model, the retrieval index and the SQLite engine are
      external: they are fields of a record of adapters, each one a function
      of its arguments and of a state of the outside world, which it may
      change. *)

From Stdlib Require Import String Ascii ZArith QArith Qround Qminmax Qabs.
From Stdlib Require Import List Lia Lqa Permutation.
From stdpp Require Import base gmap strings list.

Open Scope string_scope.

(** ** Python strings *)

Module Py.

Definition code (c : ascii) : nat := nat_of_ascii c.

Definition between (lo hi : nat) (c : ascii) : bool :=
  Nat.leb lo (code c) && Nat.leb (code c) hi.

(** [\d] *)
Definition isdigit (c : ascii) : bool := between 48 57 c.

(** [str.isspace] on ASCII, which is also [\s]: TAB..CR, FS..US and space. *)
Definition isspace (c : ascii) : bool :=
  between 9 13 c || between 28 31 c || Nat.eqb (code c) 32.

Definition isupper (c : ascii) : bool := between 65 90 c.
Definition islower (c : ascii) : bool := between 97 122 c.

(** [\w] *)
Definition isword (c : ascii) : bool :=
  isupper c || islower c || isdigit c || Nat.eqb (code c) 95.

Definition lower_char (c : ascii) : ascii :=
  if isupper c then ascii_of_nat (code c + 32) else c.

Definition upper_char (c : ascii) : ascii :=
  if islower c then ascii_of_nat (code c - 32) else c.

Fixpoint map_string (f : ascii -> ascii) (s : string) : string :=
  match s with
  | EmptyString => EmptyString
  | String c r => String (f c) (map_string f r)
  end.

Definition lower : string -> string := map_string lower_char.
Definition upper : string -> string := map_string upper_char.

Definition is_empty (s : string) : bool :=
  match s with EmptyString => true | _ => false end.

(** [s.lstrip()], [s.rstrip()] and [s.strip()] *)
Fixpoint lstrip (s : string) : string :=
  match s with
  | EmptyString => EmptyString
  | String c r => if isspace c then lstrip r else s
  end.

Fixpoint rstrip (s : string) : string :=
  match s with
  | EmptyString => EmptyString
  | String c r =>
      let r' := rstrip r in
      if is_empty r' && isspace c then EmptyString else String c r'
  end.

Definition strip (s : string) : string := lstrip (rstrip s).

(** [s.startswith(p)] *)
Definition startswith (s p : string) : bool := String.prefix p s.

(** [sub in s] *)
Fixpoint contains (sub s : string) : bool :=
  String.prefix sub s ||
  match s with
  | EmptyString => false
  | String _ r => contains sub r
  end.

(** [s[n:]] *)
Fixpoint drop_prefix_len (n : nat) (s : string) : string :=
  match n, s with
  | S n, String _ r => drop_prefix_len n r
  | _, _ => s
  end.

(** The line feed, as a string. *)
Definition newline : string := String "010" EmptyString.

(** The double quote, as a string. *)
Definition dquote : string := String "034" EmptyString.

(** [sep.join(l)] *)
Definition join (sep : string) (l : list string) : string := String.concat sep l.

(** [s[:n]] *)
Definition slice_to (n : nat) (s : string) : string := String.substring 0 n s.

(** [x or y] on strings *)
Definition or_else (x y : string) : string := if is_empty x then y else x.

(** [any(word in s for word in words)] *)
Definition any_in (words : list string) (s : string) : bool :=
  existsb (fun word => contains word s) words.

(** The leading run of digits of [s], and what follows it. *)
Fixpoint take_digits (s : string) : string :=
  match s with
  | String c r => if isdigit c then String c (take_digits r) else EmptyString
  | EmptyString => EmptyString
  end.

Fixpoint drop_digits (s : string) : string :=
  match s with
  | String c r => if isdigit c then drop_digits r else s
  | EmptyString => EmptyString
  end.

Definition digit_value (c : ascii) : Z := Z.of_nat (code c - 48).

(** [int(s)] for a string of decimal digits *)
Definition int_of_digits (s : string) : Z :=
  fold_left (fun acc c => (10 * acc + digit_value c)%Z) (list_ascii_of_string s) 0%Z.

(** Insertion sort by code point order: [sorted(l)] on strings. *)
Fixpoint insert_sorted (x : string) (l : list string) : list string :=
  match l with
  | [] => [x]
  | y :: r => if String.leb x y then x :: l else y :: insert_sorted x r
  end.

Definition sorted (l : list string) : list string := foldr insert_sorted [] l.

End Py.

(** ** Python values and exceptions *)

Inductive pyfloat : Type :=
| Finite (q : Q)
| Infinity
| NegInfinity
| NaN.

Set Warnings "-register-all".

(** The values an answer can be: what [int], [float], [json.loads] and the
    raw text produce.  A [dict] keeps its keys in insertion order. *)
Inductive pyval : Type :=
| PNone
| PBool (b : bool)
| PInt (z : Z)
| PFloat (f : pyfloat)
| PStr (s : string)
| PList (l : list pyval)
| PDict (d : list (string * pyval)).

(** [type(v).__name__] *)
Definition type_name (v : pyval) : string :=
  match v with
  | PNone => "NoneType"
  | PBool _ => "bool"
  | PInt _ => "int"
  | PFloat _ => "float"
  | PStr _ => "str"
  | PList _ => "list"
  | PDict _ => "dict"
  end.

Inductive exn : Type :=
| UnboundLocalError
| JSONDecodeError
| RecursionError
| AttributeError
| KeyError
| GraphRecursionError
| DatabaseError (message : string).

(** The result of running code that may raise. *)
Inductive outcome (A : Type) : Type :=
| Done (a : A)
| Raise (e : exn).
Arguments Done {A} a.
Arguments Raise {A} e.

#[global] Instance outcome_ret : MRet outcome := @Done.

#[global] Instance outcome_bind : MBind outcome := fun A B k o =>
  match o with
  | Done a => k a
  | Raise e => Raise e
  end.

(** ** Rounding *)

(** The integer nearest to [x], ties to the even one. *)
Definition round_half_even (x : Q) : Z :=
  let f := Qfloor x in
  match (x - inject_Z f ?= 1 # 2)%Q with
  | Lt => f
  | Gt => (f + 1)%Z
  | Eq => if Z.even f then f else (f + 1)%Z
  end.

(** [round(x, 2)] *)
Definition round2 (x : Q) : Q := round_half_even (x * 100)%Q # 100.

(** ** The regular expressions of the answer parser

    [re.search] returns the leftmost match; each pattern of the program is
    rendered by the function that computes that match. *)

Module Re.
Import Py.

(** [\d+]: the first maximal run of digits. *)
Fixpoint search_digits (s : string) : option string :=
  match s with
  | EmptyString => None
  | String c r =>
      if isdigit c then Some (String c (take_digits r)) else search_digits r
  end.

(** What [\.?\d*] matches at the head of [s]. *)
Definition fraction_part (s : string) : string :=
  match s with
  | String "."%char r => String "."%char (take_digits r)
  | _ => EmptyString
  end.

(** [\d+\.?\d*] *)
Fixpoint search_float (s : string) : option string :=
  match s with
  | EmptyString => None
  | String c r =>
      if isdigit c
      then Some (String c (take_digits r) ++ fraction_part (drop_digits r))
      else search_float r
  end.

(** [.*?] followed by the character [close]: up to the first [close]. *)
Fixpoint upto (close : ascii) (s : string) : option string :=
  match s with
  | EmptyString => None
  | String c r =>
      if Ascii.eqb c close then Some (String c EmptyString)
      else String c <$> upto close r
  end.

(** [(\{.*?\}|\[.*?\])] anchored at the head of [s]. *)
Definition json_like_here (s : string) : option string :=
  match s with
  | String c r =>
      if Ascii.eqb c "{" then String c <$> upto "}" r
      else if Ascii.eqb c "[" then String c <$> upto "]" r
      else None
  | EmptyString => None
  end.

(** [(\{.*?\}|\[.*?\])] with DOTALL, group 1 *)
Fixpoint search_json_like (s : string) : option string :=
  match s with
  | EmptyString => None
  | String _ r =>
      match json_like_here s with
      | Some m => Some m
      | None => search_json_like r
      end
  end.

(** [.*?] followed by [close], then [\s*] and the closing fence. *)
Fixpoint upto_fence (close : ascii) (s : string) : option string :=
  match s with
  | EmptyString => None
  | String c r =>
      if Ascii.eqb c close && startswith (lstrip r) "```"
      then Some (String c EmptyString)
      else String c <$> upto_fence close r
  end.

Definition drop_prefix (p s : string) : string :=
  if startswith s p then drop_prefix_len (String.length p) s else s.

(** The fenced pattern anchored at the head of [s]. *)
Definition fenced_here (s : string) : option string :=
  if startswith s "```" then
    match lstrip (drop_prefix "json" (drop_prefix "```" s)) with
    | String c r =>
        if Ascii.eqb c "{" then String c <$> upto_fence "}" r
        else if Ascii.eqb c "[" then String c <$> upto_fence "]" r
        else None
    | EmptyString => None
    end
  else None.

(** [```(?:json)?\s*(\{.*?\}|\[.*?\])\s*```] with DOTALL, group 1 *)
Fixpoint search_fenced (s : string) : option string :=
  match s with
  | EmptyString => None
  | String _ r =>
      match fenced_here s with
      | Some m => Some m
      | None => search_fenced r
      end
  end.

(** [\b] between the characters [prev] and [next] ([None] at either end of
    the text). *)
Definition boundary (prev next : option ascii) : bool :=
  xorb (from_option isword false prev) (from_option isword false next).

Definition head (s : string) : option ascii :=
  match s with String c _ => Some c | EmptyString => None end.

Fixpoint last_char (prev : option ascii) (s : string) : option ascii :=
  match s with String c r => last_char (Some c) r | EmptyString => prev end.

(** [\b] [pat] [\b] anchored at the head of [s], which follows [prev]. *)
Definition word_here (pat : string) (prev : option ascii) (s : string) : bool :=
  boundary prev (head s) && startswith s pat &&
  boundary (last_char prev pat)
           (head (drop_prefix_len (String.length pat) s)).

Fixpoint search_word_from (pat : string) (prev : option ascii) (s : string) : bool :=
  word_here pat prev s ||
  match s with
  | EmptyString => false
  | String c r => search_word_from pat (Some c) r
  end.

(** [re.search(r'\b' + re.escape(pat) + r'\b', s)] finds a match. *)
Definition search_word (pat s : string) : bool := search_word_from pat None s.

End Re.

(** ** [json.loads]

    The decoder of the standard library ([json.decoder], strict mode) on
    ASCII text.  A character written [\uXXXX] is stored as its UTF-8 bytes. *)

Module Json.
Import Py.

(** The decoder's whitespace: space, TAB, LF, CR. *)
Definition ws (c : ascii) : bool :=
  Nat.eqb (code c) 32 || Nat.eqb (code c) 9 || Nat.eqb (code c) 10 || Nat.eqb (code c) 13.

Fixpoint skip_ws (s : string) : string :=
  match s with
  | String c r => if ws c then skip_ws r else s
  | EmptyString => EmptyString
  end.

(** *** Strings *)

Definition hex_value (c : ascii) : option N :=
  if isdigit c then Some (N.of_nat (code c - 48))
  else if between 97 102 c then Some (N.of_nat (code c - 87))
  else if between 65 70 c then Some (N.of_nat (code c - 55))
  else None.

Definition hex4 (a b c d : ascii) : option N :=
  x ← hex_value a; y ← hex_value b; z ← hex_value c; w ← hex_value d;
  Some (((x * 16 + y) * 16 + z) * 16 + w)%N.

(** What follows a backslash other than [u]. *)
Definition backslash (c : ascii) : option ascii :=
  if Ascii.eqb c "034" then Some "034"%char
  else if Ascii.eqb c "\" then Some "\"%char
  else if Ascii.eqb c "/" then Some "/"%char
  else if Ascii.eqb c "b" then Some (ascii_of_nat 8)
  else if Ascii.eqb c "f" then Some (ascii_of_nat 12)
  else if Ascii.eqb c "n" then Some (ascii_of_nat 10)
  else if Ascii.eqb c "r" then Some (ascii_of_nat 13)
  else if Ascii.eqb c "t" then Some (ascii_of_nat 9)
  else None.

(** One element of a string literal: a character of the text, or the code
    point of a [\u] escape. *)
Inductive element : Type :=
| Raw (c : ascii)
| Escaped (n : N).

(** The elements up to the closing quote, and the text after it. *)
Fixpoint scan_elements (s : string) : option (list element * string) :=
  match s with
  | EmptyString => None
  | String c r =>
      if Ascii.eqb c "034" then Some ([], r)
      else if Ascii.eqb c "\" then
        match r with
        | String "u" (String h1 (String h2 (String h3 (String h4 r')))) =>
            n ← hex4 h1 h2 h3 h4;
            '(es, rest) ← scan_elements r';
            Some (Escaped n :: es, rest)
        | String "u" _ => None
        | String e r' =>
            ch ← backslash e;
            '(es, rest) ← scan_elements r';
            Some (Raw ch :: es, rest)
        | EmptyString => None
        end
      else if Nat.ltb (code c) 32 then None
      else
        '(es, rest) ← scan_elements r;
        Some (Raw c :: es, rest)
  end.

Definition byte (n : N) : ascii := ascii_of_N n.

(** UTF-8 (a lone surrogate is encoded like any other code point). *)
Definition utf8 (n : N) : list ascii :=
  if (n <? 128)%N then [byte n]
  else if (n <? 2048)%N then [byte (192 + n / 64); byte (128 + n mod 64)]
  else if (n <? 65536)%N then
    [byte (224 + n / 4096); byte (128 + (n / 64) mod 64); byte (128 + n mod 64)]
  else
    [byte (240 + n / 262144); byte (128 + (n / 4096) mod 64);
     byte (128 + (n / 64) mod 64); byte (128 + n mod 64)].

Definition high_surrogate (n : N) : bool := (55296 <=? n)%N && (n <=? 56319)%N.
Definition low_surrogate (n : N) : bool := (56320 <=? n)%N && (n <=? 57343)%N.

(** A high surrogate escape directly followed by a low surrogate escape is
    one code point. *)
Fixpoint decode_elements (es : list element) : list ascii :=
  match es with
  | [] => []
  | Raw c :: r => c :: decode_elements r
  | Escaped n :: r =>
      match r with
      | Escaped m :: r' =>
          if high_surrogate n && low_surrogate m
          then utf8 (65536 + (n - 55296) * 1024 + (m - 56320)) ++ decode_elements r'
          else utf8 n ++ decode_elements r
      | _ => utf8 n ++ decode_elements r
      end
  end.

(** [scanstring], after the opening quote *)
Definition scanstring (s : string) : outcome (string * string) :=
  match scan_elements s with
  | Some (es, rest) => Done (string_of_list_ascii (decode_elements es), rest)
  | None => Raise JSONDecodeError
  end.

(** *** Numbers *)

(** An optional minus sign, then [0] or a run of digits that does not start
    with [0]: the sign, the digits, and the rest. *)
Definition integer_part (s : string) : option (bool * string * string) :=
  let '(negative, s1) :=
    match s with
    | String "-" r => (true, r)
    | _ => (false, s)
    end in
  match s1 with
  | String c r =>
      if Ascii.eqb c "0" then Some (negative, "0", r)
      else if isdigit c then Some (negative, String c (take_digits r), drop_digits r)
      else None
  | EmptyString => None
  end.

(** A point and at least one digit: the digits after the point (none if the
    group is absent). *)
Definition frac_part (s : string) : option string * string :=
  match s with
  | String "." (String d r) =>
      if isdigit d then (Some (String d (take_digits r)), drop_digits r)
      else (None, s)
  | _ => (None, s)
  end.

Definition exp_digits (negative : bool) (s rest : string) : option Z * string :=
  match s with
  | String d r =>
      if isdigit d
      then (Some (if negative then - int_of_digits (take_digits s)
                  else int_of_digits (take_digits s))%Z, drop_digits s)
      else (None, rest)
  | EmptyString => (None, rest)
  end.

(** [e] or [E], an optional sign and at least one digit, if present. *)
Definition exp_part (s : string) : option Z * string :=
  match s with
  | String e r =>
      if Ascii.eqb e "e" || Ascii.eqb e "E" then
        match r with
        | String "-" r' => exp_digits true r' s
        | String "+" r' => exp_digits false r' s
        | _ => exp_digits false r s
        end
      else (None, s)
  | EmptyString => (None, s)
  end.

(** [float(integer + frac + exp)], exactly *)
Definition float_of_parts (negative : bool) (integer : string) (frac : option string)
    (exp : option Z) : Q :=
  let f := default EmptyString frac in
  let mantissa :=
    (inject_Z (int_of_digits integer) +
     inject_Z (int_of_digits f) / inject_Z (10 ^ Z.of_nat (String.length f)))%Q in
  let scaled := (mantissa * Qpower 10 (default 0%Z exp))%Q in
  Qred (if negative then - scaled else scaled)%Q.

Definition match_number (s : string) : option (pyval * string) :=
  '(negative, integer, r1) ← integer_part s;
  let '(frac, r2) := frac_part r1 in
  let '(exp, r3) := exp_part r2 in
  match frac, exp with
  | None, None =>
      Some (PInt (if negative then - int_of_digits integer else int_of_digits integer)%Z, r3)
  | _, _ => Some (PFloat (Finite (float_of_parts negative integer frac exp)), r3)
  end.

(** *** Values *)

(** [d[key] = value] *)
Fixpoint dict_set (key : string) (value : pyval) (d : list (string * pyval)) :
    list (string * pyval) :=
  match d with
  | [] => [(key, value)]
  | (k, v) :: r =>
      if String.eqb k key then (k, value) :: r else (k, v) :: dict_set key value r
  end.

(** The literals and the numbers. *)
Definition scan_atom (s : string) : outcome (pyval * string) :=
  if startswith s "null" then Done (PNone, drop_prefix_len 4 s)
  else if startswith s "true" then Done (PBool true, drop_prefix_len 4 s)
  else if startswith s "false" then Done (PBool false, drop_prefix_len 5 s)
  else
    match match_number s with
    | Some r => Done r
    | None =>
        if startswith s "NaN" then Done (PFloat NaN, drop_prefix_len 3 s)
        else if startswith s "Infinity" then Done (PFloat Infinity, drop_prefix_len 8 s)
        else if startswith s "-Infinity" then Done (PFloat NegInfinity, drop_prefix_len 9 s)
        else Raise JSONDecodeError
    end.

(** The first character of [s] after the whitespace, and what follows it. *)
Definition next_char (s : string) : option (ascii * string) :=
  match skip_ws s with
  | String c r => Some (c, r)
  | EmptyString => None
  end.

(** [scan_once]; [JSONArray] and [JSONObject] after their first element has
    been located.  [fuel] bounds the recursion depth. *)
Fixpoint scan_once (fuel : nat) (s : string) {struct fuel} : outcome (pyval * string) :=
  match fuel with
  | O => Raise RecursionError
  | S fuel =>
      match s with
      | String c r =>
          if Ascii.eqb c "034" then
            '(str, rest) ← scanstring r; Done (PStr str, rest)
          else if Ascii.eqb c "{" then
            match next_char r with
            | Some (c1, r1) =>
                if Ascii.eqb c1 "}" then Done (PDict [], r1)
                else if Ascii.eqb c1 "034" then object_items fuel r1 []
                else Raise JSONDecodeError
            | None => Raise JSONDecodeError
            end
          else if Ascii.eqb c "[" then
            match next_char r with
            | Some (c1, r1) =>
                if Ascii.eqb c1 "]" then Done (PList [], r1)
                else array_items fuel (String c1 r1) []
            | None => array_items fuel EmptyString []
            end
          else scan_atom s
      | EmptyString => scan_atom s
      end
  end
with array_items (fuel : nat) (s : string) (values : list pyval) {struct fuel} :
    outcome (pyval * string) :=
  match fuel with
  | O => Raise RecursionError
  | S fuel =>
      '(value, r) ← scan_once fuel s;
      match next_char r with
      | Some (c, r1) =>
          if Ascii.eqb c "]" then Done (PList (values ++ [value]), r1)
          else if Ascii.eqb c "," then array_items fuel (skip_ws r1) (values ++ [value])
          else Raise JSONDecodeError
      | None => Raise JSONDecodeError
      end
  end
with object_items (fuel : nat) (s : string) (pairs : list (string * pyval)) {struct fuel} :
    outcome (pyval * string) :=
  match fuel with
  | O => Raise RecursionError
  | S fuel =>
      '(key, r) ← scanstring s;
      match next_char r with
      | Some (c, r1) =>
          if Ascii.eqb c ":" then
            '(value, r2) ← scan_once fuel (skip_ws r1);
            match next_char r2 with
            | Some (c2, r3) =>
                if Ascii.eqb c2 "}" then Done (PDict (dict_set key value pairs), r3)
                else if Ascii.eqb c2 "," then
                  match next_char r3 with
                  | Some (c4, r4) =>
                      if Ascii.eqb c4 "034"
                      then object_items fuel r4 (dict_set key value pairs)
                      else Raise JSONDecodeError
                  | None => Raise JSONDecodeError
                  end
                else Raise JSONDecodeError
            | None => Raise JSONDecodeError
            end
          else Raise JSONDecodeError
      | None => Raise JSONDecodeError
      end
  end.

(** [json.loads(s)]: one value between optional whitespace, and nothing
    else. *)
Definition loads (s : string) : outcome pyval :=
  '(value, rest) ← scan_once (2 * String.length s + 1) (skip_ws s);
  if is_empty (skip_ws rest) then Done value else Raise JSONDecodeError.

End Json.

(** ** The answer parser ([HybridAgent._parse_answer]) *)

Import Py.

(** A name that is local to a function is unbound until a statement that
    binds it has run.  [_parse_answer] contains [import re] statements, so
    [re] is one of its locals (the module [graph_hybrid] itself never imports
    [re]); reading it while it is unbound raises [UnboundLocalError]. *)
Inductive local : Type :=
| Unbound
| Bound.

(** [re.search(pattern, s)], where [re] is the local of [_parse_answer] and
    [pattern] the search function of the pattern. *)
Definition re_search (re : local) (pattern : string -> option string) (s : string) :
    outcome (option string) :=
  match re with
  | Bound => Done (pattern s)
  | Unbound => Raise UnboundLocalError
  end.

(** [float(m)] for a match [m] of the pattern of [Re.search_float] *)
Definition float_of_match (m : string) : Q :=
  let frac :=
    match drop_digits m with
    | String "." r => r
    | _ => EmptyString
    end in
  (inject_Z (int_of_digits (take_digits m)) +
   inject_Z (int_of_digits frac) / inject_Z (10 ^ Z.of_nat (String.length frac)))%Q.

(** Lines 371-379: the inner [try] with its bare [except]. *)
Definition parse_structured (answer_str : string) : outcome pyval :=
  match Json.loads answer_str with
  | Done v => Done v
  | Raise _ =>
      let re := Bound in (* import re *)
      m ← re_search re Re.search_json_like answer_str;
      match m with
      | Some group1 => Json.loads group1
      | None => Done (PDict [])
      end
  end.

(** Lines 349-381: the body of the outer [try].  It returns the value of
    [answer_str] when it stops together with its result, because the handler
    of line 383 returns that variable. *)
Definition parse_answer_body (answer_str format_hint : string) : string * outcome pyval :=
  let re := Unbound in
  if String.eqb format_hint "int" then
    let re := Bound in (* import re *)
    (answer_str,
     m ← re_search re Re.search_digits answer_str;
     Done (match m with
           | Some group => PInt (int_of_digits group)
           | None => PInt 0
           end))
  else if String.eqb format_hint "float" then
    let re := Bound in (* import re *)
    (answer_str,
     m ← re_search re Re.search_float answer_str;
     Done (match m with
           | Some group => PFloat (Finite (round2 (float_of_match group)))
           | None => PFloat (Finite 0)
           end))
  else if startswith format_hint "{" || startswith format_hint "list[" then
    if contains "```" answer_str then
      match re_search re Re.search_fenced answer_str with
      | Raise e => (answer_str, Raise e)
      | Done m =>
          let answer_str := default answer_str m in
          (answer_str, parse_structured answer_str)
      end
    else (answer_str, parse_structured answer_str)
  else (answer_str, Done (PStr answer_str)).

Definition _parse_answer (answer_str format_hint : string) : pyval :=
  let answer_str := strip answer_str in
  match parse_answer_body answer_str format_hint with
  | (_, Done v) => v
  | (answer_str, Raise _) => PStr answer_str (* except Exception *)
  end.

(** ** The data model *)

(** [agent/rag/retrieval.py]: [DocumentChunk] *)
Record DocumentChunk : Type := {
  chunk_id : string;
  chunk_content : string;
  chunk_source : string;
  chunk_score : Q;
}.

(** A value of a result row. *)
Inductive sqlval : Type :=
| SqlNull
| SqlInteger (z : Z)
| SqlReal (q : Q)
| SqlText (s : string)
| SqlBlob (b : string).

Definition row : Type := list sqlval.

(** [agent/tools/sqlite_tool.py]: [QueryResult] *)
Record QueryResult : Type := {
  success : bool;
  columns : list string;
  rows : list row;
  error : option string;
  tables_used : option (list string);
}.

(** One entry of [trace_events]. *)
Inductive trace_event : Type :=
| TraceRoute (route : string)
| TraceRetrieve (chunks : nat)
| TracePlan (constraints : string)
| TraceGenerateSql (sql : string)
| TraceExecuteSql (success : bool) (rows : nat)
| TraceRepairSql (attempt : nat)
| TraceSynthesize (confidence : Q)
| TraceValidate (answer_type : string).

(** [AgentState] *)
Record AgentState : Type := {
  question : string;
  format_hint : string;
  route : string;
  retrieved_chunks : list DocumentChunk;
  doc_context : string;
  constraints : string;
  sql_query : string;
  sql_result : option QueryResult;
  sql_attempts : nat;
  final_answer : pyval;
  reasoning : string;
  confidence : Q;
  citations : list string;
  repair_count : nat;
  errors : list (option string);
  trace_events : list trace_event;
}.

(** [state[key] = value], one function per key that the nodes assign. *)
Definition set_route (v : string) (s : AgentState) : AgentState :=
  {| question := question s; format_hint := format_hint s; route := v;
     retrieved_chunks := retrieved_chunks s; doc_context := doc_context s;
     constraints := constraints s; sql_query := sql_query s; sql_result := sql_result s;
     sql_attempts := sql_attempts s; final_answer := final_answer s;
     reasoning := reasoning s; confidence := confidence s; citations := citations s;
     repair_count := repair_count s; errors := errors s; trace_events := trace_events s |}.

Definition set_retrieved_chunks (v : list DocumentChunk) (s : AgentState) : AgentState :=
  {| question := question s; format_hint := format_hint s; route := route s;
     retrieved_chunks := v; doc_context := doc_context s;
     constraints := constraints s; sql_query := sql_query s; sql_result := sql_result s;
     sql_attempts := sql_attempts s; final_answer := final_answer s;
     reasoning := reasoning s; confidence := confidence s; citations := citations s;
     repair_count := repair_count s; errors := errors s; trace_events := trace_events s |}.

Definition set_doc_context (v : string) (s : AgentState) : AgentState :=
  {| question := question s; format_hint := format_hint s; route := route s;
     retrieved_chunks := retrieved_chunks s; doc_context := v;
     constraints := constraints s; sql_query := sql_query s; sql_result := sql_result s;
     sql_attempts := sql_attempts s; final_answer := final_answer s;
     reasoning := reasoning s; confidence := confidence s; citations := citations s;
     repair_count := repair_count s; errors := errors s; trace_events := trace_events s |}.

Definition set_constraints (v : string) (s : AgentState) : AgentState :=
  {| question := question s; format_hint := format_hint s; route := route s;
     retrieved_chunks := retrieved_chunks s; doc_context := doc_context s;
     constraints := v; sql_query := sql_query s; sql_result := sql_result s;
     sql_attempts := sql_attempts s; final_answer := final_answer s;
     reasoning := reasoning s; confidence := confidence s; citations := citations s;
     repair_count := repair_count s; errors := errors s; trace_events := trace_events s |}.

Definition set_sql_query (v : string) (s : AgentState) : AgentState :=
  {| question := question s; format_hint := format_hint s; route := route s;
     retrieved_chunks := retrieved_chunks s; doc_context := doc_context s;
     constraints := constraints s; sql_query := v; sql_result := sql_result s;
     sql_attempts := sql_attempts s; final_answer := final_answer s;
     reasoning := reasoning s; confidence := confidence s; citations := citations s;
     repair_count := repair_count s; errors := errors s; trace_events := trace_events s |}.

Definition set_sql_result (v : option QueryResult) (s : AgentState) : AgentState :=
  {| question := question s; format_hint := format_hint s; route := route s;
     retrieved_chunks := retrieved_chunks s; doc_context := doc_context s;
     constraints := constraints s; sql_query := sql_query s; sql_result := v;
     sql_attempts := sql_attempts s; final_answer := final_answer s;
     reasoning := reasoning s; confidence := confidence s; citations := citations s;
     repair_count := repair_count s; errors := errors s; trace_events := trace_events s |}.

Definition set_sql_attempts (v : nat) (s : AgentState) : AgentState :=
  {| question := question s; format_hint := format_hint s; route := route s;
     retrieved_chunks := retrieved_chunks s; doc_context := doc_context s;
     constraints := constraints s; sql_query := sql_query s; sql_result := sql_result s;
     sql_attempts := v; final_answer := final_answer s;
     reasoning := reasoning s; confidence := confidence s; citations := citations s;
     repair_count := repair_count s; errors := errors s; trace_events := trace_events s |}.

Definition set_final_answer (v : pyval) (s : AgentState) : AgentState :=
  {| question := question s; format_hint := format_hint s; route := route s;
     retrieved_chunks := retrieved_chunks s; doc_context := doc_context s;
     constraints := constraints s; sql_query := sql_query s; sql_result := sql_result s;
     sql_attempts := sql_attempts s; final_answer := v;
     reasoning := reasoning s; confidence := confidence s; citations := citations s;
     repair_count := repair_count s; errors := errors s; trace_events := trace_events s |}.

Definition set_reasoning (v : string) (s : AgentState) : AgentState :=
  {| question := question s; format_hint := format_hint s; route := route s;
     retrieved_chunks := retrieved_chunks s; doc_context := doc_context s;
     constraints := constraints s; sql_query := sql_query s; sql_result := sql_result s;
     sql_attempts := sql_attempts s; final_answer := final_answer s;
     reasoning := v; confidence := confidence s; citations := citations s;
     repair_count := repair_count s; errors := errors s; trace_events := trace_events s |}.

Definition set_confidence (v : Q) (s : AgentState) : AgentState :=
  {| question := question s; format_hint := format_hint s; route := route s;
     retrieved_chunks := retrieved_chunks s; doc_context := doc_context s;
     constraints := constraints s; sql_query := sql_query s; sql_result := sql_result s;
     sql_attempts := sql_attempts s; final_answer := final_answer s;
     reasoning := reasoning s; confidence := v; citations := citations s;
     repair_count := repair_count s; errors := errors s; trace_events := trace_events s |}.

Definition set_citations (v : list string) (s : AgentState) : AgentState :=
  {| question := question s; format_hint := format_hint s; route := route s;
     retrieved_chunks := retrieved_chunks s; doc_context := doc_context s;
     constraints := constraints s; sql_query := sql_query s; sql_result := sql_result s;
     sql_attempts := sql_attempts s; final_answer := final_answer s;
     reasoning := reasoning s; confidence := confidence s; citations := v;
     repair_count := repair_count s; errors := errors s; trace_events := trace_events s |}.

Definition set_repair_count (v : nat) (s : AgentState) : AgentState :=
  {| question := question s; format_hint := format_hint s; route := route s;
     retrieved_chunks := retrieved_chunks s; doc_context := doc_context s;
     constraints := constraints s; sql_query := sql_query s; sql_result := sql_result s;
     sql_attempts := sql_attempts s; final_answer := final_answer s;
     reasoning := reasoning s; confidence := confidence s; citations := citations s;
     repair_count := v; errors := errors s; trace_events := trace_events s |}.

Definition set_errors (v : list (option string)) (s : AgentState) : AgentState :=
  {| question := question s; format_hint := format_hint s; route := route s;
     retrieved_chunks := retrieved_chunks s; doc_context := doc_context s;
     constraints := constraints s; sql_query := sql_query s; sql_result := sql_result s;
     sql_attempts := sql_attempts s; final_answer := final_answer s;
     reasoning := reasoning s; confidence := confidence s; citations := citations s;
     repair_count := repair_count s; errors := v; trace_events := trace_events s |}.

Definition set_trace_events (v : list trace_event) (s : AgentState) : AgentState :=
  {| question := question s; format_hint := format_hint s; route := route s;
     retrieved_chunks := retrieved_chunks s; doc_context := doc_context s;
     constraints := constraints s; sql_query := sql_query s; sql_result := sql_result s;
     sql_attempts := sql_attempts s; final_answer := final_answer s;
     reasoning := reasoning s; confidence := confidence s; citations := citations s;
     repair_count := repair_count s; errors := errors s; trace_events := v |}.

(** ** The confidence score ([HybridAgent._calculate_confidence]) *)

Definition sum_scores (chunks : list DocumentChunk) : Q :=
  foldr (fun c acc => (chunk_score c + acc)%Q) 0%Q chunks.

(** [len(l)] as a float *)
Definition len {A : Type} (l : list A) : Q := inject_Z (Z.of_nat (length l)).

Definition nonempty {A : Type} (l : list A) : bool :=
  match l with [] => false | _ => true end.

Definition _calculate_confidence (state : AgentState) : Q :=
  let base := 0.55%Q in
  let chunks := retrieved_chunks state in
  let doc_score :=
    if nonempty chunks then
      let avg_score := (sum_scores chunks / inject_Z (Z.max 1 (Z.of_nat (length chunks))))%Q in
      Qmin 0.35 (0.2 + 0.5 * avg_score * 0.35)
    else 0%Q in
  let sql_score :=
    match sql_result state with
    | Some sql_res =>
        if success sql_res && nonempty (rows sql_res) then 0.35%Q
        else if success sql_res && negb (nonempty (rows sql_res)) then 0.15%Q
        else 0%Q
    | None => 0%Q
    end in
  let citations := citations state in
  let cit_score :=
    if nonempty citations then
      let has_table := existsb (fun c => negb (contains "::" c)) citations in
      let cit_score := (0.06 + Qmin 0.06 (0.03 * len citations))%Q in
      if has_table then (cit_score + 0.02)%Q else cit_score
    else 0%Q in
  let repair_penalty :=
    if Nat.ltb 0 (repair_count state)
    then Qpower 0.9 (Z.of_nat (repair_count state))
    else 1%Q in
  let confidence := ((base + doc_score + sql_score + cit_score) * repair_penalty)%Q in
  let confidence := Qmax 0 (Qmin 1 confidence) in
  round2 confidence.

(** ** The outside world *)

(** The nodes of the workflow. *)
Inductive node : Type :=
| Route
| Retrieve
| Plan
| GenerateSql
| ExecuteSql
| Synthesize
| Validate
| RepairSql
| END.

#[global] Instance node_eq_dec : EqDecision node.
Proof. solve_decision. Defined.

Inductive adapter : Type :=
| Reasoning
| Retrieval
| Data.

#[global] Instance adapter_eq_dec : EqDecision adapter.
Proof. solve_decision. Defined.

(** What a run does, in order: the nodes it runs and the calls it makes to
    the adapters. *)
Inductive event : Type :=
| Ran (n : node)
| Called (a : adapter).

#[global] Instance event_eq_dec : EqDecision event.
Proof. solve_decision. Defined.

(** What [cursor.execute] leaves behind when it does not raise. *)
Record cursor : Type := {
  description : option (list string);
  fetchall : list row;
}.

(** The external collaborators.  [W] is the state of the outside world; a
    call returns its answer and the next state of the world.  The reasoning
    calls return the output field that the program reads.  The text that the
    synthesis call receives as [sql_result] is given by its parts: [None] is
    the literal ["No SQL results"], [Some (columns, rows)] the rendering of
    the columns and of the first rows. *)
Record Adapters (W : Type) : Type := {
  lm_classify : string -> W -> string * W;
  lm_generate : string -> string -> string -> W -> string * W;
  lm_refine : string -> string -> string -> string -> W -> string * W;
  lm_synthesize :
    string -> string -> string -> option (list string * list row) -> W ->
    (string * string) * W;
  lm_extract : string -> string -> W -> string * W;
  retriever_retrieve : string -> nat -> W -> list DocumentChunk * W;
  sqlite3_execute : string -> W -> (cursor + string) * W;
  schema_cache : list (string * list string);
}.
Arguments lm_classify {W}.
Arguments lm_generate {W}.
Arguments lm_refine {W}.
Arguments lm_synthesize {W}.
Arguments lm_extract {W}.
Arguments retriever_retrieve {W}.
Arguments sqlite3_execute {W}.
Arguments schema_cache {W}.

Record world (W : Type) : Type := {
  outside : W;
  log : list event;
}.
Arguments outside {W}.
Arguments log {W}.

(** Code that calls the adapters and may raise. *)
Definition M (W A : Type) : Type := world W -> outcome A * world W.

#[global] Instance M_ret {W} : MRet (M W) := fun A a w => (Done a, w).

#[global] Instance M_bind {W} : MBind (M W) := fun A B k m w =>
  match m w with
  | (Done a, w') => k a w'
  | (Raise e, w') => (Raise e, w')
  end.

Definition raise {W A} (e : exn) : M W A := fun w => (Raise e, w).

Definition lift {W A} (o : outcome A) : M W A := fun w => (o, w).

Definition record {W} (e : event) : M W unit := fun w =>
  (Done tt, {| outside := outside w; log := (log w ++ [e])%list |}).

(** A call to an adapter that returns. *)
Definition call {W A} (a : adapter) (f : W -> A * W) : M W A := fun w =>
  let '(r, o) := f (outside w) in
  (Done r, {| outside := o; log := (log w ++ [Called a])%list |}).

(** A call to an adapter that returns or raises with a message. *)
Definition call_raising {W A} (a : adapter) (f : W -> (A + string) * W) : M W A := fun w =>
  let '(r, o) := f (outside w) in
  (match r with inl v => Done v | inr message => Raise (DatabaseError message) end,
   {| outside := o; log := (log w ++ [Called a])%list |}).

(** [try: body except Exception as e: handler(e)] *)
Definition try_except {W A} (body : M W A) (handler : exn -> M W A) : M W A := fun w =>
  match body w with
  | (Done a, w') => (Done a, w')
  | (Raise e, w') => handler e w'
  end.

(** [str(e)] *)
Definition str_exn (e : exn) : string :=
  match e with
  | DatabaseError message => message
  | UnboundLocalError => "cannot access local variable"
  | JSONDecodeError => "Expecting value"
  | RecursionError => "maximum recursion depth exceeded"
  | AttributeError => "'NoneType' object has no attribute"
  | KeyError => "KeyError"
  | GraphRecursionError => "Recursion limit reached"
  end.

(** [d.get(key)] on a dictionary kept as the list of its items *)
Fixpoint dict_get {A : Type} (key : string) (d : list (string * A)) : option A :=
  match d with
  | [] => None
  | (k, v) :: r => if String.eqb k key then Some v else dict_get key r
  end.

(** ** The data adapter ([NorthwindDB]) and the router ([Router]) *)

Section Agent.

Context {W : Type} (adapters : Adapters W).

Definition key_tables : list string :=
  ["Orders"; "Order Details"; "Products"; "Customers"; "Categories"].

Definition get_compact_schema : string :=
  if nonempty (schema_cache adapters) then
    join newline
      (omap (fun table =>
               cols ← dict_get table (schema_cache adapters);
               Some (table ++ "(" ++ join ", " cols ++ ")"))
            key_tables)
  else EmptyString.

Definition _extract_tables_from_sql (sql : string) : list string :=
  let sql_upper := upper sql in
  if nonempty (schema_cache adapters) then
    let tables :=
      filter (fun table => Is_true (Re.search_word (upper table) sql_upper))
             (map fst (schema_cache adapters)) in
    sorted (elements (list_to_set tables : gset string))
  else [].

Definition execute_query (sql : string) : M W QueryResult :=
  try_except
    (cur ← call_raising Data (sqlite3_execute adapters sql);
     let columns := default [] (description cur) in
     let rows := fetchall cur in
     let tables_used := _extract_tables_from_sql sql in
     mret {| success := true; columns := columns; rows := rows; error := None;
             tables_used := Some tables_used |})
    (fun e =>
       mret {| success := false; columns := []; rows := []; error := Some (str_exn e);
               tables_used := Some [] |}).

(** [x in l] on strings *)
Definition in_list (x : string) (l : list string) : bool := existsb (String.eqb x) l.

(** The word lists of [Router.forward]. *)
Definition labels : list string := ["rag"; "sql"; "hybrid"].
Definition document_words : list string :=
  ["policy"; "return"; "window"; "days"; "definition"].
Definition aggregate_words : list string := ["revenue"; "top"; "total"; "sum"; "count"].
Definition temporal_words : list string := ["during"; "campaign"; "marketing"; "calendar"].

(** [Router.forward] after the call to the classifier, whose [route] output
    is [classified]. *)
Definition Router_normalize (classified question : string) : string :=
  let route := strip (lower classified) in
  if in_list route labels then route
  else if any_in document_words (lower question) then "rag"
  else if any_in aggregate_words (lower question) then
    if any_in temporal_words (lower question) then "hybrid" else "sql"
  else "hybrid".

Definition Router_forward (question : string) : M W string :=
  classified ← call Reasoning (lm_classify adapters question);
  mret (Router_normalize classified question).

Definition NL2SQL_forward (question schema context : string) : M W string :=
  sql_query ← call Reasoning
    (lm_generate adapters question schema (or_else context "No additional context"));
  mret (strip sql_query).

Definition SQLRefiner_forward (question failed_sql error schema : string) : M W string :=
  refined_sql ← call Reasoning (lm_refine adapters question failed_sql error schema);
  mret (strip refined_sql).

Definition AnswerSynthesizer_forward (question format_hint doc_context : string)
    (sql_result : option (list string * list row)) : M W (string * string) :=
  call Reasoning
    (lm_synthesize adapters question format_hint
                   (or_else doc_context "No document context") sql_result).

Definition ConstraintExtractor_forward (question doc_context : string) : M W string :=
  call Reasoning (lm_extract adapters question doc_context).

Definition SimpleRetriever_retrieve (query : string) (top_k : nat) :
    M W (list DocumentChunk) :=
  call Retrieval (retriever_retrieve adapters query top_k).

(** ** The nodes ([HybridAgent]) *)

Definition _route_node (state : AgentState) : M W AgentState :=
  route ← Router_forward (question state);
  let state := set_route route state in
  let state := set_trace_events [TraceRoute route] state in
  let state := set_repair_count 0 state in
  let state := set_sql_attempts 0 state in
  let state := set_errors [] state in
  mret state.

Definition _retrieve_node (state : AgentState) : M W AgentState :=
  chunks ← SimpleRetriever_retrieve (question state) 3;
  let doc_context :=
    join (newline ++ newline)
         (map (fun chunk => "[" ++ chunk_id chunk ++ "] " ++ chunk_content chunk) chunks) in
  let state := set_retrieved_chunks chunks state in
  let state := set_doc_context doc_context state in
  let state := set_trace_events [TraceRetrieve (length chunks)] state in
  mret state.

Definition _plan_node (state : AgentState) : M W AgentState :=
  let doc_ctx := doc_context state in
  constraints ←
    (if negb (is_empty doc_ctx)
     then ConstraintExtractor_forward (question state) doc_ctx
     else mret "No document context available.");
  let state := set_constraints constraints state in
  let state := set_trace_events [TracePlan (slice_to 100 constraints)] state in
  mret state.

Definition _generate_sql_node (state : AgentState) : M W AgentState :=
  let schema := get_compact_schema in
  let context := or_else (constraints state) (doc_context state) in
  sql ← NL2SQL_forward (question state) schema context;
  let state := set_sql_query sql state in
  let state := set_sql_attempts (sql_attempts state + 1) state in
  let state := set_trace_events [TraceGenerateSql sql] state in
  mret state.

Definition _execute_sql_node (state : AgentState) : M W AgentState :=
  result ← execute_query (sql_query state);
  let state := set_sql_result (Some result) state in
  let state :=
    set_trace_events [TraceExecuteSql (success result) (length (rows result))] state in
  let state := if negb (success result) then set_errors [error result] state else state in
  mret state.

Definition _repair_sql_node (state : AgentState) : M W AgentState :=
  let schema := get_compact_schema in
  match sql_result state with
  | None => raise AttributeError
  | Some sql_result =>
      let error := or_else (default EmptyString (error sql_result)) "Query returned no results" in
      refined_sql ← SQLRefiner_forward (question state) (sql_query state) error schema;
      let state := set_sql_query refined_sql state in
      let state := set_sql_attempts (sql_attempts state + 1) state in
      let state := set_repair_count (repair_count state + 1) state in
      let state := set_trace_events [TraceRepairSql (repair_count state)] state in
      mret state
  end.

(** [chunk.score > 0.01] *)
Definition significant (chunk : DocumentChunk) : bool :=
  negb (Qle_bool (chunk_score chunk) 0.01).

(** [list(set(citations))]: the distinct elements, in no particular order. *)
Definition deduplicate (citations : list string) : list string :=
  elements (list_to_set citations : gset string).

Definition _synthesize_node (state : AgentState) : M W AgentState :=
  let doc_ctx := doc_context state in
  let sql_result_str :=
    match sql_result state with
    | Some result =>
        if success result && nonempty (rows result)
        then Some (columns result, take 10 (rows result))
        else None
    | None => None
    end in
  '(reasoning, answer_str) ←
    AnswerSynthesizer_forward (question state) (format_hint state) doc_ctx sql_result_str;
  let final_answer := _parse_answer answer_str (format_hint state) in
  let citations : list string := [] in
  let citations :=
    (citations ++ map chunk_id (filter (fun chunk => Is_true (significant chunk))
                                       (retrieved_chunks state)))%list in
  let citations :=
    match sql_result state with
    | Some result =>
        if success result then (citations ++ default [] (tables_used result))%list
        else citations
    | None => citations
    end in
  let confidence := _calculate_confidence state in
  let state := set_final_answer final_answer state in
  let state := set_reasoning reasoning state in
  let state := set_confidence confidence state in
  let state := set_citations (deduplicate citations) state in
  let state := set_trace_events [TraceSynthesize confidence] state in
  mret state.

Definition _validate_node (state : AgentState) : M W AgentState :=
  let state := set_trace_events [TraceValidate (type_name (final_answer state))] state in
  mret state.

(** ** The edge conditions *)

Definition _route_decision (state : AgentState) : string := route state.

Definition _needs_sql (state : AgentState) : string :=
  if in_list (route state) ["sql"; "hybrid"] then "yes" else "no".

Definition _check_sql_success (state : AgentState) : string :=
  match sql_result state with
  | None => "fail"
  | Some result =>
      if success result && nonempty (rows result) then "success"
      else if Nat.ltb (repair_count state) 2 then "retry"
      else "fail"
  end.

Definition _check_synthesis (state : AgentState) : string := "done".

(** ** The graph ([HybridAgent._build_graph]) *)

Inductive edge : Type :=
| Always (target : node)
| Conditional (condition : AgentState -> string) (targets : list (string * node)).

Definition handler (n : node) : AgentState -> M W AgentState :=
  match n with
  | Route => _route_node
  | Retrieve => _retrieve_node
  | Plan => _plan_node
  | GenerateSql => _generate_sql_node
  | ExecuteSql => _execute_sql_node
  | Synthesize => _synthesize_node
  | Validate => _validate_node
  | RepairSql => _repair_sql_node
  | END => mret
  end.

Definition edges (n : node) : edge :=
  match n with
  | Route =>
      Conditional _route_decision [("rag", Retrieve); ("sql", Plan); ("hybrid", Retrieve)]
  | Retrieve => Always Plan
  | Plan => Conditional _needs_sql [("yes", GenerateSql); ("no", Synthesize)]
  | GenerateSql => Always ExecuteSql
  | ExecuteSql =>
      Conditional _check_sql_success
        [("success", Synthesize); ("retry", RepairSql); ("fail", Synthesize)]
  | RepairSql => Always ExecuteSql
  | Synthesize =>
      Conditional _check_synthesis
        [("valid", Validate); ("retry", Synthesize); ("done", Validate)]
  | Validate => Always END
  | END => Always END
  end.

Definition entry_point : node := Route.

(** ** The graph engine

    A node receives the state and returns it updated; the engine writes the
    returned keys back.  The keys [errors] and [trace_events] are declared
    with the reducer [operator.add]: what a node returns for them is added to
    what the state holds.  The condition of an edge reads the state after
    this update.  A run that takes more steps than the recursion limit
    raises. *)

Definition apply_update (state update : AgentState) : AgentState :=
  set_errors (errors state ++ errors update)%list
    (set_trace_events (trace_events state ++ trace_events update)%list update).

Definition next (n : node) (state : AgentState) : outcome node :=
  match edges n with
  | Always target => Done target
  | Conditional condition targets =>
      match dict_get (condition state) targets with
      | Some target => Done target
      | None => Raise KeyError
      end
  end.

Definition step (n : node) (state : AgentState) : M W (node * AgentState) :=
  _ ← record (Ran n);
  update ← handler n state;
  let state := apply_update state update in
  n' ← lift (next n state);
  mret (n', state).

Definition recursion_limit : nat := 25.

Fixpoint invoke_from (limit : nat) (n : node) (state : AgentState) : M W AgentState :=
  match n with
  | END => mret state
  | _ =>
      match limit with
      | O => raise GraphRecursionError
      | S limit =>
          '(n', state') ← step n state;
          invoke_from limit n' state'
      end
  end.

Definition invoke (initial_state : AgentState) : M W AgentState :=
  invoke_from recursion_limit entry_point initial_state.

(** ** The public interface ([HybridAgent.answer_question]) *)


Definition initial_state (question format_hint : string) : AgentState :=
  {| question := question; format_hint := format_hint; route := EmptyString;
     retrieved_chunks := []; doc_context := EmptyString; constraints := EmptyString;
     sql_query := EmptyString; sql_result := None; sql_attempts := 0;
     final_answer := PNone; reasoning := EmptyString;
     confidence := 0; citations := []; repair_count := 0; errors := [];
     trace_events := [] |}.


End Agent.

(** ** The confidence score as the specification words it *)








(** ** Runs *)



(** How many times an event occurs in a log. *)
Definition occurrences (e : event) (l : list event) : nat :=
  length (filter (fun x => x = e) l).

(** The world before a run. *)
Definition fresh {W : Type} (o : W) : world W := {| outside := o; log := [] |}.

(** What [_synthesize_node] collects before it deduplicates. *)
Definition collected (state : AgentState) : list string :=
  (map chunk_id (filter (fun chunk => Is_true (significant chunk)) (retrieved_chunks state)) ++
   match sql_result state with
   | Some result => if success result then default [] (tables_used result) else []
   | None => []
   end)%list.

Section Runs.

Context {W : Type} (adapters : Adapters W).

(** The configurations that the run of a question goes through: the node
    about to run, the state and the world. *)
Inductive reachable (question format_hint : string) (o : W) :
    node -> AgentState -> world W -> Prop :=
| reachable_start :
    reachable question format_hint o entry_point (initial_state question format_hint) (fresh o)
| reachable_step n state w n' state' w' :
    reachable question format_hint o n state w ->
    n <> END ->
    step adapters n state w = (Done (n', state'), w') ->
    reachable question format_hint o n' state' w'.

(** The number of steps that are left at most. *)
Definition rank (n : node) (state : AgentState) : nat :=
  match n with
  | Route => 11
  | Retrieve => 10
  | Plan => 9
  | GenerateSql => 8
  | ExecuteSql => 7 - 2 * repair_count state
  | RepairSql => 6 - 2 * repair_count state
  | Synthesize => 2
  | Validate => 1
  | END => 0
  end.

Definition before_query (n : node) : bool :=
  match n with
  | Route | Retrieve | Plan | GenerateSql => true
  | _ => false
  end.

Definition after_query (n : node) : bool :=
  match n with
  | Synthesize | Validate | END => true
  | _ => false
  end.

Definition after_synthesis (n : node) : bool :=
  match n with
  | Validate | END => true
  | _ => false
  end.

(** What holds of every configuration of a run. *)
Record invariant (hint : string) (n : node) (state : AgentState) (w : world W) : Prop := {
  inv_hint : format_hint state = hint;
  inv_start : n = Route -> log w = [];
  inv_repair_count : repair_count state <= 2;
  inv_calls : occurrences (Called Data) (log w) = occurrences (Ran ExecuteSql) (log w);
  inv_before : before_query n = true ->
               repair_count state = 0 /\ occurrences (Ran ExecuteSql) (log w) = 0;
  inv_execute : n = ExecuteSql -> occurrences (Ran ExecuteSql) (log w) = repair_count state;
  inv_repair : n = RepairSql ->
               occurrences (Ran ExecuteSql) (log w) = repair_count state + 1 /\
               repair_count state < 2 /\ is_Some (sql_result state);
  inv_executions : occurrences (Ran ExecuteSql) (log w) <= 3;
  inv_route : n <> Route -> in_list (route state) labels = true;
  inv_retrieve : n = Retrieve \/ In (Ran Retrieve) (log w) \/ In (Called Retrieval) (log w) ->
                 route state = "rag" \/ route state = "hybrid";
  inv_result : forall result, sql_result state = Some result ->
               exists sql w0 w1, execute_query adapters sql w0 = (Done result, w1);
  inv_exhausted : after_query n = true -> _needs_sql state = "yes" ->
                  occurrences (Ran ExecuteSql) (log w) = 3 \/
                  exists result, sql_result state = Some result /\
                                 success result = true /\ nonempty (rows result) = true;
  inv_synthesized : after_synthesis n = true ->
                    In (Ran Synthesize) (log w) /\
                    citations state = deduplicate (collected state) /\
                    exists answer_str, final_answer state = _parse_answer answer_str hint;
}.


End Runs.

(** ** Sample answers and adapters *)

(** The text of a record, and the same text in a fenced code block. *)
Definition sample_record : string := "{" ++ dquote ++ "count" ++ dquote ++ ": 51}".

Definition fenced (text : string) : string :=
  "```json" ++ newline ++ text ++ newline ++ "```".

(** A data adapter that fails on every execution, a retriever with one
    fragment, and a reasoning service with fixed answers. *)

Definition sample_chunk : DocumentChunk :=
  {| chunk_id := "product_policy::chunk0"; chunk_content := "Returns within 14 days.";
     chunk_source := "product_policy"; chunk_score := 0.5 |}.




Definition failing_adapters (classified answer : string) : Adapters unit := {|
  lm_classify := fun _ o => (classified, o);
  lm_generate := fun _ _ _ o => ("SELECT OrderID FROM Orders", o);
  lm_refine := fun _ _ _ _ o => ("SELECT OrderID FROM orders", o);
  lm_synthesize := fun _ _ _ _ o => (("Based on the data.", answer), o);
  lm_extract := fun _ _ o => ("No specific constraints found", o);
  retriever_retrieve := fun _ _ o => ([sample_chunk], o);
  sqlite3_execute := fun _ o => (inr "no such table: Orders", o);
  schema_cache := [("Orders", ["OrderID"; "CustomerID"; "OrderDate"])];
|}.

(** The final state and the final world of a run, when it returns. *)
Definition final_of {W : Type} (run : outcome AgentState * world W) (otherwise : AgentState) :
    AgentState :=
  match fst run with
  | Done final => final
  | Raise _ => otherwise
  end.

(** The run of a question on the hybrid route against the failing adapter. *)
Definition failing_run : outcome AgentState * world unit :=
  invoke (failing_adapters "hybrid" "42") (initial_state "Count total orders" "int")
         (fresh tt).

(** The result that the failing adapter leads to. *)
Definition failing_result : QueryResult :=
  {| success := false; columns := []; rows := []; error := Some "no such table: Orders";
     tables_used := Some [] |}.

Definition failing_final : AgentState :=
  final_of failing_run (initial_state "Count total orders" "int").

(** * Properties *)

(** ** The decoder never runs out of fuel *)

Section JsonFuel.

Lemma skip_ws_length s : String.length (Json.skip_ws s) <= String.length s.
Proof.
  induction s as [|c r IH]; simpl; [lia|]. destruct (Json.ws c); simpl; lia.
Qed.

Lemma next_char_length s c r : Json.next_char s = Some (c, r) -> String.length r < String.length s.
Proof.
  unfold Json.next_char. pose proof (skip_ws_length s) as H.
  destruct (Json.skip_ws s) as [|c' r']; [discriminate|].
  intros [= <- <-]. simpl in H. lia.
Qed.

Lemma drop_digits_length s : String.length (drop_digits s) <= String.length s.
Proof.
  induction s as [|c r IH]; simpl; [lia|]. destruct (isdigit c); simpl; lia.
Qed.

Lemma drop_prefix_len_length n s :
  n <= String.length s -> String.length (drop_prefix_len n s) + n = String.length s.
Proof.
  revert s. induction n as [|n IH]; intros s H; [destruct s; simpl; lia|].
  destruct s as [|c r]; simpl in *; [lia|]. rewrite <- (IH r); lia.
Qed.

Lemma prefix_length p s : String.prefix p s = true -> String.length p <= String.length s.
Proof.
  revert s. induction p as [|c p IH]; intros s H; simpl; [lia|].
  destruct s as [|c' s]; simpl in H; [discriminate|].
  destruct (Ascii.ascii_dec c c'); [|discriminate]. apply IH in H. simpl. lia.
Qed.

Lemma scan_elements_length : forall n s es rest,
  String.length s <= n -> Json.scan_elements s = Some (es, rest) ->
  String.length rest < String.length s.
Proof.
  induction n as [|n IH]; intros s es rest Hn H.
  - destruct s; simpl in *; [discriminate|lia].
  - destruct s as [|c r]; simpl in H; [discriminate|]. simpl in Hn.
    destruct (Ascii.eqb c "034"); [inversion H; subst; simpl; lia|].
    destruct (Ascii.eqb c "\").
    + destruct r as [|e r']; [discriminate|].
      destruct (Ascii.eqb_spec e "u") as [->|He].
      * destruct r' as [|h1 [|h2 [|h3 [|h4 r'']]]]; try discriminate.
        destruct (Json.hex4 h1 h2 h3 h4); simpl in H; [|discriminate].
        destruct (Json.scan_elements r'') as [[es' rest']|] eqn:Hrec; simpl in H;
          [|discriminate].
        inversion H; subst. apply IH in Hrec; simpl in *; lia.
      * assert (H' : (ch ← Json.backslash e;
                      '(es, rest) ← Json.scan_elements r';
                      Some (Json.Raw ch :: es, rest)) = Some (es, rest)).
        { destruct e as [[] [] [] [] [] [] [] []]; try exact H; congruence. }
        destruct (Json.backslash e); simpl in H'; [|discriminate].
        destruct (Json.scan_elements r') as [[es' rest']|] eqn:Hrec; simpl in H';
          [|discriminate].
        inversion H'; subst. apply IH in Hrec; simpl in *; lia.
    + destruct (Nat.ltb (code c) 32); [discriminate|].
      destruct (Json.scan_elements r) as [[es' rest']|] eqn:Hrec; simpl in H;
        [|discriminate].
      inversion H; subst. apply IH in Hrec; simpl in *; lia.
Qed.

Lemma scanstring_length s str rest :
  Json.scanstring s = Done (str, rest) -> String.length rest < String.length s.
Proof.
  unfold Json.scanstring.
  destruct (Json.scan_elements s) as [[es r]|] eqn:H; [|discriminate].
  intros [= _ <-]. eapply scan_elements_length; eauto.
Qed.

Lemma integer_part_length s negative integer rest :
  Json.integer_part s = Some (negative, integer, rest) -> String.length rest < String.length s.
Proof.
  unfold Json.integer_part.
  destruct s as [|c r]; [discriminate|].
  destruct (Ascii.eqb_spec c "-") as [->|Hc].
  - intros H. destruct r as [|c1 r1]; [discriminate|].
    destruct (Ascii.eqb c1 "0"); [inversion H; subst; simpl; lia|].
    destruct (isdigit c1); [|discriminate].
    inversion H; subst. pose proof (drop_digits_length r1). simpl. lia.
  - intros H.
    assert (H' : (if Ascii.eqb c "0" then Some (false, "0", r)
                  else if isdigit c
                       then Some (false, String c (take_digits r), drop_digits r)
                       else None) = Some (negative, integer, rest)).
    { destruct c as [[] [] [] [] [] [] [] []]; try exact H; congruence. }
    destruct (Ascii.eqb c "0"); [inversion H'; subst; simpl; lia|].
    destruct (isdigit c); [|discriminate].
    inversion H'; subst. pose proof (drop_digits_length r). simpl. lia.
Qed.

Lemma frac_part_length s : String.length (snd (Json.frac_part s)) <= String.length s.
Proof.
  unfold Json.frac_part. destruct s as [|c [|d r]]; simpl; try lia.
  - destruct c as [[] [] [] [] [] [] [] []]; simpl; lia.
  - assert (H : forall o : option string * string,
              (o = (if isdigit d then (Some (String d (take_digits r)), drop_digits r)
                    else (None, String c (String d r))) \/ o = (None, String c (String d r))) ->
              String.length (snd o) <= S (S (String.length r))).
    { intros o [-> | ->]; [destruct (isdigit d)|]; simpl;
        pose proof (drop_digits_length r); lia. }
    apply H. destruct c as [[] [] [] [] [] [] [] []]; auto.
Qed.

Lemma exp_digits_length negative s rest :
  String.length s <= String.length rest ->
  String.length (snd (Json.exp_digits negative s rest)) <= String.length rest.
Proof.
  intros H. unfold Json.exp_digits. destruct s as [|d r]; simpl; [lia|].
  destruct (isdigit d); simpl; [|lia].
  pose proof (drop_digits_length r). simpl in H. lia.
Qed.

Lemma exp_part_length s : String.length (snd (Json.exp_part s)) <= String.length s.
Proof.
  unfold Json.exp_part. destruct s as [|e r]; simpl; [lia|].
  destruct (Ascii.eqb e "e" || Ascii.eqb e "E"); simpl; [|lia].
  assert (H : forall o : option Z * string,
            (o = Json.exp_digits false r (String e r) \/
             exists negative r', r = String negative r' /\
               (o = Json.exp_digits true r' (String e r) \/
                o = Json.exp_digits false r' (String e r))) ->
            String.length (snd o) <= S (String.length r)).
  { intros o [-> | (c & r' & -> & [-> | ->])];
      (etransitivity; [apply exp_digits_length|]); simpl; lia. }
  apply H. destruct r as [|c r']; [auto|].
  destruct c as [[] [] [] [] [] [] [] []]; eauto 7.
Qed.

Lemma match_number_length s v rest :
  Json.match_number s = Some (v, rest) -> String.length rest < String.length s.
Proof.
  unfold Json.match_number.
  destruct (Json.integer_part s) as [[[negative integer] r1]|] eqn:Hint; simpl;
    [|discriminate].
  apply integer_part_length in Hint.
  pose proof (frac_part_length r1) as Hfrac.
  destruct (Json.frac_part r1) as [frac r2]. simpl in Hfrac.
  pose proof (exp_part_length r2) as Hexp.
  destruct (Json.exp_part r2) as [exp r3]. simpl in Hexp.
  destruct frac, exp; intros [= _ <-]; lia.
Qed.

Lemma literal_length p s :
  startswith s p = true -> 0 < String.length p ->
  String.length (drop_prefix_len (String.length p) s) < String.length s.
Proof.
  intros H Hp. apply prefix_length in H.
  pose proof (drop_prefix_len_length (String.length p) s H). lia.
Qed.

Lemma scan_atom_length s v rest :
  Json.scan_atom s = Done (v, rest) -> String.length rest < String.length s.
Proof.
  unfold Json.scan_atom.
  destruct (startswith s "null") eqn:H1;
    [intros [= _ <-]; apply (literal_length "null"); [exact H1|simpl; lia]|].
  destruct (startswith s "true") eqn:H2;
    [intros [= _ <-]; apply (literal_length "true"); [exact H2|simpl; lia]|].
  destruct (startswith s "false") eqn:H3;
    [intros [= _ <-]; apply (literal_length "false"); [exact H3|simpl; lia]|].
  destruct (Json.match_number s) as [[v' r']|] eqn:Hn;
    [intros [= _ <-]; eapply match_number_length; eauto|].
  destruct (startswith s "NaN") eqn:H4;
    [intros [= _ <-]; apply (literal_length "NaN"); [exact H4|simpl; lia]|].
  destruct (startswith s "Infinity") eqn:H5;
    [intros [= _ <-]; apply (literal_length "Infinity"); [exact H5|simpl; lia]|].
  destruct (startswith s "-Infinity") eqn:H6;
    [intros [= _ <-]; apply (literal_length "-Infinity"); [exact H6|simpl; lia]|].
  discriminate.
Qed.

Lemma scan_atom_fuel s : Json.scan_atom s <> Raise RecursionError.
Proof.
  unfold Json.scan_atom.
  repeat match goal with
         | |- context [if ?b then _ else _] => destruct b; try discriminate
         | |- context [match ?o with Some _ => _ | None => _ end] =>
             destruct o; try discriminate
         end.
Qed.

Lemma scanstring_fuel s : Json.scanstring s <> Raise RecursionError.
Proof. unfold Json.scanstring. destruct (Json.scan_elements s) as [[]|]; discriminate. Qed.

(** What the scanner leaves is shorter than what it was given. *)
Lemma scan_length fuel :
  (forall s v rest,
      Json.scan_once fuel s = Done (v, rest) -> String.length rest < String.length s) /\
  (forall s values v rest,
      Json.array_items fuel s values = Done (v, rest) -> String.length rest < String.length s) /\
  (forall s pairs v rest,
      Json.object_items fuel s pairs = Done (v, rest) -> String.length rest < String.length s).
Proof.
  induction fuel as [|fuel (IHscan & IHarray & IHobject)];
    [repeat split; intros; discriminate|].
  split; [|split].
  - intros s v rest H. simpl in H. destruct s as [|c r]; [eapply scan_atom_length; exact H|].
    destruct (Ascii.eqb c "034").
    { destruct (Json.scanstring r) as [[str r']|] eqn:Hs; simpl in H; [|discriminate].
      inversion H; subst. apply scanstring_length in Hs. simpl. lia. }
    destruct (Ascii.eqb c "{").
    { destruct (Json.next_char r) as [[c1 r1]|] eqn:Hn; [|discriminate].
      apply next_char_length in Hn.
      destruct (Ascii.eqb c1 "}"); [inversion H; subst; simpl; lia|].
      destruct (Ascii.eqb c1 "034"); [|discriminate].
      apply IHobject in H. simpl. lia. }
    destruct (Ascii.eqb c "[").
    { destruct (Json.next_char r) as [[c1 r1]|] eqn:Hn.
      - apply next_char_length in Hn.
        destruct (Ascii.eqb c1 "]"); [inversion H; subst; simpl; lia|].
        apply IHarray in H. simpl in *. lia.
      - apply IHarray in H. simpl in H. lia. }
    eapply scan_atom_length; exact H.
  - intros s values v rest H. simpl in H.
    destruct (Json.scan_once fuel s) as [[value r]|] eqn:Hv; simpl in H; [|discriminate].
    apply IHscan in Hv.
    destruct (Json.next_char r) as [[c r1]|] eqn:Hn; [|discriminate].
    apply next_char_length in Hn.
    destruct (Ascii.eqb c "]"); [inversion H; subst; lia|].
    destruct (Ascii.eqb c ","); [|discriminate].
    apply IHarray in H. pose proof (skip_ws_length r1). lia.
  - intros s pairs v rest H. simpl in H.
    destruct (Json.scanstring s) as [[key r]|] eqn:Hk; simpl in H; [|discriminate].
    apply scanstring_length in Hk.
    destruct (Json.next_char r) as [[c r1]|] eqn:Hn; [|discriminate].
    apply next_char_length in Hn.
    destruct (Ascii.eqb c ":"); [|discriminate].
    destruct (Json.scan_once fuel (Json.skip_ws r1)) as [[value r2]|] eqn:Hv; simpl in H;
      [|discriminate].
    apply IHscan in Hv. pose proof (skip_ws_length r1).
    destruct (Json.next_char r2) as [[c2 r3]|] eqn:Hn2; [|discriminate].
    apply next_char_length in Hn2.
    destruct (Ascii.eqb c2 "}"); [inversion H; subst; lia|].
    destruct (Ascii.eqb c2 ","); [|discriminate].
    destruct (Json.next_char r3) as [[c4 r4]|] eqn:Hn3; [|discriminate].
    apply next_char_length in Hn3.
    destruct (Ascii.eqb c4 "034"); [|discriminate].
    apply IHobject in H. lia.
Qed.

(** With fuel for twice the length of the text, the scanner does not stop
    for lack of fuel. *)
Lemma scan_fuel fuel :
  (forall s, 2 * String.length s + 1 <= fuel -> Json.scan_once fuel s <> Raise RecursionError) /\
  (forall s values, 2 * String.length s + 2 <= fuel ->
                    Json.array_items fuel s values <> Raise RecursionError) /\
  (forall s pairs, 2 * String.length s + 2 <= fuel ->
                   Json.object_items fuel s pairs <> Raise RecursionError).
Proof.
  induction fuel as [|fuel (IHscan & IHarray & IHobject)];
    [repeat split; intros; lia|].
  split; [|split].
  - intros s Hfuel. simpl. destruct s as [|c r]; [apply scan_atom_fuel|].
    simpl in Hfuel.
    destruct (Ascii.eqb c "034").
    { pose proof (scanstring_fuel r).
      destruct (Json.scanstring r) as [[str r']|]; simpl; congruence. }
    destruct (Ascii.eqb c "{").
    { destruct (Json.next_char r) as [[c1 r1]|] eqn:Hn; [|discriminate].
      apply next_char_length in Hn.
      destruct (Ascii.eqb c1 "}"); [discriminate|].
      destruct (Ascii.eqb c1 "034"); [|discriminate].
      apply IHobject. lia. }
    destruct (Ascii.eqb c "[").
    { destruct (Json.next_char r) as [[c1 r1]|] eqn:Hn.
      - apply next_char_length in Hn.
        destruct (Ascii.eqb c1 "]"); [discriminate|].
        apply IHarray. simpl. lia.
      - apply IHarray. simpl. lia. }
    apply scan_atom_fuel.
  - intros s values Hfuel. simpl.
    pose proof (IHscan s ltac:(lia)) as Hs.
    destruct (Json.scan_once fuel s) as [[value r]|e] eqn:Hv; simpl; [|congruence].
    apply (proj1 (scan_length fuel)) in Hv.
    destruct (Json.next_char r) as [[c r1]|] eqn:Hn; [|discriminate].
    apply next_char_length in Hn.
    destruct (Ascii.eqb c "]"); [discriminate|].
    destruct (Ascii.eqb c ","); [|discriminate].
    apply IHarray. pose proof (skip_ws_length r1). lia.
  - intros s pairs Hfuel. simpl.
    pose proof (scanstring_fuel s).
    destruct (Json.scanstring s) as [[key r]|e] eqn:Hk; simpl; [|congruence].
    apply scanstring_length in Hk.
    destruct (Json.next_char r) as [[c r1]|] eqn:Hn; [|discriminate].
    apply next_char_length in Hn.
    destruct (Ascii.eqb c ":"); [|discriminate].
    pose proof (skip_ws_length r1).
    pose proof (IHscan (Json.skip_ws r1) ltac:(lia)) as Hs.
    destruct (Json.scan_once fuel (Json.skip_ws r1)) as [[value r2]|e] eqn:Hv; simpl;
      [|congruence].
    apply (proj1 (scan_length fuel)) in Hv.
    destruct (Json.next_char r2) as [[c2 r3]|] eqn:Hn2; [|discriminate].
    apply next_char_length in Hn2.
    destruct (Ascii.eqb c2 "}"); [discriminate|].
    destruct (Ascii.eqb c2 ","); [|discriminate].
    destruct (Json.next_char r3) as [[c4 r4]|] eqn:Hn3; [|discriminate].
    apply next_char_length in Hn3.
    destruct (Ascii.eqb c4 "034"); [|discriminate].
    apply IHobject. lia.
Qed.

(** [json.loads] in the model fails only as the decoder does: on text that
    is not JSON. *)
Lemma loads_never_out_of_fuel s : Json.loads s <> Raise RecursionError.
Proof.
  unfold Json.loads.
  pose proof (proj1 (scan_fuel (2 * String.length s + 1)) (Json.skip_ws s)) as H.
  pose proof (skip_ws_length s).
  destruct (Json.scan_once _ (Json.skip_ws s)) as [[v rest]|e]; simpl.
  - destruct (is_empty (Json.skip_ws rest)); discriminate.
  - intros [= ->]. apply H; [lia|reflexivity].
Qed.

End JsonFuel.

(** ** The answer parser *)

Section ParserFacts.










(** A record or list hint is neither ["int"] nor ["float"]. *)
Lemma structured_hint format_hint :
  startswith format_hint "{" || startswith format_hint "list[" = true ->
  String.eqb format_hint "int" = false /\ String.eqb format_hint "float" = false.
Proof.
  intros H. split; apply not_true_is_false; intros E%String.eqb_eq; subst; discriminate.
Qed.

(** Without a fence, a text that is JSON parses to its value. *)
Lemma parse_answer_plain answer_str format_hint v :
  startswith format_hint "{" || startswith format_hint "list[" = true ->
  contains "```" (strip answer_str) = false ->
  Json.loads (strip answer_str) = Done v ->
  _parse_answer answer_str format_hint = v.
Proof.
  intros Hhint Hfence Hloads. unfold _parse_answer, parse_answer_body, parse_structured.
  destruct (structured_hint _ Hhint) as [-> ->]. now rewrite Hhint, Hfence, Hloads.
Qed.

End ParserFacts.

Example parse_answer_return_window :
  _parse_answer "The return window for unopened Beverages is 14 days." "int" = PInt 14.
Proof. reflexivity. Qed.

Example parse_answer_no_digits : _parse_answer "No answer found." "int" = PInt 0.
Proof. reflexivity. Qed.



(** C4: under a record or list hint, an answer that contains a code fence
    is not parsed at all.  The search for the fence reads the local [re]
    before any [import re] has run, the handler of the outer [try] catches
    the error, and the parser returns the trimmed text with its fence. *)
Theorem parse_answer_fenced_returns_text (answer_str format_hint : string) :
  startswith format_hint "{" || startswith format_hint "list[" = true ->
  contains "```" (strip answer_str) = true ->
  _parse_answer answer_str format_hint = PStr (strip answer_str).
Proof.
  intros Hhint Hfence. unfold _parse_answer, parse_answer_body.
  destruct (structured_hint _ Hhint) as [-> ->]. rewrite Hhint, Hfence. reflexivity.
Qed.

(** The same value, fenced and not: the parser returns the record for the
    plain text and the raw text for the fenced one. *)
Lemma parse_answer_fenced_witness :
  _parse_answer sample_record "{count:int}" = PDict [("count", PInt 51)] /\
  _parse_answer (fenced sample_record) "{count:int}" = PStr (fenced sample_record).
Proof.
  split; [reflexivity|].
  apply (parse_answer_fenced_returns_text (fenced sample_record) "{count:int}"); reflexivity.
Defined.

(** ** The router *)

Lemma any_in_intro words word s :
  In word words -> contains word s = true -> any_in words s = true.
Proof. intros Hin Hc. apply existsb_exists. eauto. Qed.

Lemma Router_forward_eq {W} (adapters : Adapters W) question w :
  fst (Router_forward adapters question w) =
  Done (Router_normalize (fst (lm_classify adapters question (outside w))) question).
Proof.
  unfold Router_forward, mbind, M_bind, call.
  now destruct (lm_classify adapters question (outside w)).
Qed.

Lemma Router_normalize_label classified question :
  in_list (Router_normalize classified question) labels = true.
Proof.
  unfold Router_normalize.
  destruct (in_list (strip (lower classified)) labels) eqn:E; [exact E|].
  now repeat destruct (any_in _ _).
Qed.

(** The questions that [dspy_signatures.py] tries, with a classifier that
    answers nothing. *)
Example router_sample_questions :
  Router_normalize EmptyString "What is the return policy for beverages?" = "rag" /\
  Router_normalize EmptyString "Top 3 products by revenue" = "sql" /\
  Router_normalize EmptyString "Total revenue during Summer Beverages 1997" = "hybrid".
Proof. repeat split; reflexivity. Qed.

(** C8: when the classifier's output, lowered and trimmed, is not one of the
    labels, [Router.forward] answers by keywords of the lowered question, in
    this order: a document word ([policy], [return], [window], [days],
    [definition]) gives [rag], in particular [policy] together with
    [return]; otherwise an aggregate word ([revenue], [top], [total], [sum],
    [count]) gives [hybrid] if a temporal or campaign word is present and
    [sql] if none is; otherwise the route is [hybrid]. *)
Theorem router_keyword_fallback {W} (adapters : Adapters W) (question : string)
    (w : world W) :
  in_list (strip (lower (fst (lm_classify adapters question (outside w))))) labels = false ->
  exists route,
    fst (Router_forward adapters question w) = Done route /\
    (forall word, In word document_words ->
                  contains word (lower question) = true -> route = "rag") /\
    (contains "policy" (lower question) = true ->
     contains "return" (lower question) = true -> route = "rag") /\
    (any_in document_words (lower question) = false ->
     forall word, In word aggregate_words -> contains word (lower question) = true ->
                  route = if any_in temporal_words (lower question) then "hybrid" else "sql") /\
    (any_in document_words (lower question) = false ->
     any_in aggregate_words (lower question) = false -> route = "hybrid").
Proof.
  intros Hlabel. eexists. split; [apply Router_forward_eq|].
  unfold Router_normalize. rewrite Hlabel.
  assert (Hdoc : forall word, In word document_words ->
                   contains word (lower question) = true ->
                   (if any_in document_words (lower question) then "rag"
                    else if any_in aggregate_words (lower question)
                         then if any_in temporal_words (lower question)
                              then "hybrid" else "sql"
                         else "hybrid") = "rag").
  { intros word Hin Hc. now rewrite (any_in_intro _ _ _ Hin Hc). }
  split; [exact Hdoc|]. split.
  - intros Hp _. apply (Hdoc "policy"); [simpl; auto|exact Hp].
  - split.
    + intros -> word Hin Hc. now rewrite (any_in_intro _ _ _ Hin Hc).
    + now intros -> ->.
Qed.

(** A question about the return policy, with a classifier that answers
    nothing usable. *)
Lemma router_keyword_fallback_witness :
  fst (Router_forward (failing_adapters "I am not sure" "14")
         "What is the return policy for unopened Beverages?" (fresh tt)) = Done "rag".
Proof.
  destruct (router_keyword_fallback (failing_adapters "I am not sure" "14")
              "What is the return policy for unopened Beverages?" (fresh tt))
    as (route & Hrun & _ & Hpolicy & _); [reflexivity|].
  rewrite Hrun. f_equal. apply Hpolicy; reflexivity.
Defined.

(** ** The data adapter *)

(** C9: [execute_query] never raises.  It returns a [QueryResult] for every
    query, and when the execution raises with a message the result is the
    failure with that message, no columns, no rows and no tables. *)
Theorem execute_query_never_raises {W} (adapters : Adapters W) (sql : string) (w : world W) :
  exists result w',
    execute_query adapters sql w = (Done result, w') /\
    match fst (sqlite3_execute adapters sql (outside w)) with
    | inr message =>
        result = {| success := false; columns := []; rows := [];
                    error := Some message; tables_used := Some [] |}
    | inl cur =>
        success result = true /\ error result = None /\ rows result = fetchall cur
    end.
Proof.
  unfold execute_query, try_except, mbind, M_bind, call_raising.
  destruct (sqlite3_execute adapters sql (outside w)) as [[cur|message] o]; simpl;
    eexists _, _; split; try reflexivity; auto.
Qed.

(** ** The confidence score *)

Section Rounding.

Local Open Scope Q_scope.






End Rounding.

Section ConfidenceTerms.

Local Open Scope Q_scope.

Variable state : AgentState.






End ConfidenceTerms.

Section Confidence.

Local Open Scope Q_scope.


End Confidence.

(** ** The workflow *)

Section RunFacts.
Context {W : Type} (adapters : Adapters W).

Lemma occurrences_snoc e l x :
  occurrences e (l ++ [x]) = occurrences e l + (if decide (x = e) then 1 else 0).
Proof.
  unfold occurrences. rewrite filter_app, length_app. f_equal.
  rewrite filter_cons, filter_nil. now destruct (decide (x = e)).
Qed.

Lemma label_cases r : in_list r labels = true -> r = "rag" \/ r = "sql" \/ r = "hybrid".
Proof.
  unfold in_list, labels. simpl. rewrite !orb_true_iff.
  intros [H|[H|[H|H]]]; try discriminate; apply String.eqb_eq in H; auto.
Qed.

Lemma in_snoc (e x : event) l : In e (l ++ [x]) <-> In e l \/ x = e.
Proof. rewrite in_app_iff. simpl. tauto. Qed.

(** The fields of the invariant, under fixed names. *)
Ltac take_invariant :=
  intros [Hhint Hstart Hcount Hcalls Hbefore Hexecute Hrepair Hbound Hroute Hretrieve
          Hresult Hexhausted Hsynth].

Ltac unfold_step H :=
  unfold step, handler, mbind, M_bind, call, record, lift, mret, M_ret, raise in H;
  simpl in H.

Ltac log_simpl :=
  cbn [log outside format_hint route repair_count sql_result citations final_answer
       retrieved_chunks apply_update set_route set_retrieved_chunks set_doc_context
       set_constraints set_sql_query set_sql_result set_sql_attempts set_final_answer
       set_reasoning set_confidence set_citations set_repair_count set_errors
       set_trace_events before_query after_synthesis after_query] in *;
  rewrite ?occurrences_snoc, ?in_snoc in *;
  repeat match goal with
         | |- context [decide (?a = ?b)] => destruct (decide (a = b)); try discriminate
         | H : context [decide (?a = ?b)] |- _ => destruct (decide (a = b)); try discriminate
         end.

Ltac close_field :=
  intros; log_simpl;
  try solve [ lia | congruence | discriminate | tauto
            | intuition (try lia; try congruence; try discriminate)
            | repeat split; solve [ lia | eexists; reflexivity ]
            | eauto ].

Ltac use_start H :=
  let E := fresh "Hlog" in
  pose proof (H eq_refl) as E; rewrite E in *; simpl in *.

Lemma invariant_Route hint state w n' state' w' :
  invariant adapters hint Route state w ->
  step adapters Route state w = (Done (n', state'), w') ->
  invariant adapters hint n' state' w'.
Proof.
  take_invariant. intros Hstep. unfold_step Hstep.
  unfold _route_node, Router_forward in Hstep.
  unfold_step Hstep.
  destruct (lm_classify adapters (question state) (outside w)) as [classified o].
  simpl in Hstep. unfold next in Hstep. simpl in Hstep. unfold _route_decision in Hstep.
  simpl in Hstep.
  pose proof (Router_normalize_label classified (question state)) as Hlabel.
  pose proof (Hstart eq_refl) as Hlog.
  destruct (label_cases _ Hlabel) as [E|[E|E]]; rewrite E in *; simpl in Hstep;
    inversion Hstep; subst; clear Hstep; constructor; close_field.
  all: try (rewrite E; auto).
  all: try (rewrite Hlog in *; simpl in *; intuition discriminate).
Qed.

Lemma invariant_Retrieve hint state w n' state' w' :
  invariant adapters hint Retrieve state w ->
  step adapters Retrieve state w = (Done (n', state'), w') ->
  invariant adapters hint n' state' w'.
Proof.
  take_invariant. intros Hstep. unfold_step Hstep.
  unfold _retrieve_node, SimpleRetriever_retrieve in Hstep. unfold_step Hstep.
  destruct (retriever_retrieve adapters (question state) 3 (outside w)) as [chunks o].
  simpl in Hstep. inversion Hstep; subst; clear Hstep.
  constructor; close_field.
Qed.

Lemma invariant_Plan hint state w n' state' w' :
  invariant adapters hint Plan state w ->
  step adapters Plan state w = (Done (n', state'), w') ->
  invariant adapters hint n' state' w'.
Proof.
  take_invariant. intros Hstep. unfold_step Hstep.
  unfold _plan_node, ConstraintExtractor_forward in Hstep. unfold_step Hstep.
  pose proof (Hroute ltac:(discriminate)) as Hlabel.
  unfold next in Hstep. simpl in Hstep. unfold _needs_sql in Hstep.
  destruct (is_empty (doc_context state)); simpl in Hstep;
    [|destruct (lm_extract adapters (question state) (doc_context state) (outside w))
        as [constraints o]; simpl in Hstep];
    destruct (label_cases _ Hlabel) as [E|[E|E]]; rewrite E in *; simpl in Hstep;
    inversion Hstep; subst; clear Hstep; constructor; close_field.
  all: unfold _needs_sql in *; log_simpl;
    match goal with H : context [in_list (route _)] |- _ => rewrite E in H end;
    discriminate.
Qed.

Lemma invariant_GenerateSql hint state w n' state' w' :
  invariant adapters hint GenerateSql state w ->
  step adapters GenerateSql state w = (Done (n', state'), w') ->
  invariant adapters hint n' state' w'.
Proof.
  take_invariant. intros Hstep. unfold_step Hstep.
  unfold _generate_sql_node, NL2SQL_forward in Hstep. unfold_step Hstep.
  destruct (lm_generate adapters _ _ _ (outside w)) as [sql o].
  simpl in Hstep. inversion Hstep; subst; clear Hstep.
  destruct (Hbefore eq_refl) as [Hrc Hex].
  constructor; close_field.
Qed.

Lemma execute_query_inv sql w r w1 :
  execute_query adapters sql w = (r, w1) ->
  exists result,
    r = Done result /\ log w1 = (log w ++ [Called Data])%list /\
    (success result = false ->
     columns result = [] /\ rows result = [] /\ tables_used result = Some []).
Proof.
  unfold execute_query, try_except, mbind, M_bind, call_raising, mret, M_ret.
  destruct (sqlite3_execute adapters sql (outside w)) as [[cur|message] o];
    intros H; inversion H; subst; clear H; eexists;
    (split; [reflexivity|]); (split; [reflexivity|]); simpl; intros; auto; discriminate.
Qed.

Lemma invariant_ExecuteSql hint state w n' state' w' :
  invariant adapters hint ExecuteSql state w ->
  step adapters ExecuteSql state w = (Done (n', state'), w') ->
  invariant adapters hint n' state' w'.
Proof.
  take_invariant. intros Hstep.
  unfold step, handler, _execute_sql_node, mbind, M_bind, record, lift, mret, M_ret in Hstep.
  match type of Hstep with
  | context [execute_query adapters ?s ?w0] =>
      destruct (execute_query adapters s w0) as [r w1] eqn:Hquery
  end.
  destruct (execute_query_inv _ _ _ _ Hquery) as (result & -> & Hlog & Hfail).
  pose proof (Hexecute eq_refl) as Hex.
  destruct w1 as [o1 log1]. simpl in Hlog. subst log1.
  assert (Hnew : forall r, Some result = Some r ->
            exists sql w0 w1, execute_query adapters sql w0 = (Done r, w1)).
  { intros r [= <-]. eauto. }
  unfold next, edges, _check_sql_success in Hstep.
  destruct (success result) eqn:Hs; cbn [negb] in Hstep; log_simpl;
    rewrite ?Hs in Hstep; cbn [andb] in Hstep;
    [destruct (nonempty (rows result)) eqn:Hrows|];
    try destruct (Nat.ltb_spec (repair_count state) 2); simpl in Hstep;
    inversion Hstep; subst; clear Hstep; constructor; close_field.
Qed.

Lemma invariant_RepairSql hint state w n' state' w' :
  invariant adapters hint RepairSql state w ->
  step adapters RepairSql state w = (Done (n', state'), w') ->
  invariant adapters hint n' state' w'.
Proof.
  take_invariant. intros Hstep. unfold_step Hstep.
  unfold _repair_sql_node, SQLRefiner_forward in Hstep.
  destruct (Hrepair eq_refl) as (Hex & Hrc & result & Hres).
  rewrite Hres in Hstep. unfold_step Hstep.
  destruct (lm_refine adapters _ _ _ _ (outside w)) as [refined o].
  simpl in Hstep. inversion Hstep; subst; clear Hstep.
  constructor; close_field.
Qed.

Lemma invariant_Synthesize hint state w n' state' w' :
  invariant adapters hint Synthesize state w ->
  step adapters Synthesize state w = (Done (n', state'), w') ->
  invariant adapters hint n' state' w'.
Proof.
  take_invariant. intros Hstep. unfold_step Hstep.
  unfold _synthesize_node, AnswerSynthesizer_forward in Hstep. unfold_step Hstep.
  destruct (lm_synthesize adapters _ _ _ _ (outside w)) as [[reasoning answer_str] o].
  simpl in Hstep. inversion Hstep; subst; clear Hstep.
  constructor; close_field.
  split; [tauto|]. split; [|eexists; reflexivity].
  unfold collected. cbn [retrieved_chunks sql_result apply_update set_errors
    set_trace_events set_citations set_confidence set_reasoning set_final_answer].
  destruct (sql_result state) as [result|]; [destruct (success result)|];
    now rewrite ?app_nil_r.
Qed.

Lemma invariant_Validate hint state w n' state' w' :
  invariant adapters hint Validate state w ->
  step adapters Validate state w = (Done (n', state'), w') ->
  invariant adapters hint n' state' w'.
Proof.
  take_invariant. intros Hstep. unfold_step Hstep.
  unfold _validate_node in Hstep. unfold_step Hstep.
  inversion Hstep; subst; clear Hstep.
  destruct (Hsynth eq_refl) as (Hran & Hcit & Hans).
  constructor; close_field.
Qed.

Lemma invariant_step hint n state w n' state' w' :
  invariant adapters hint n state w -> n <> END ->
  step adapters n state w = (Done (n', state'), w') ->
  invariant adapters hint n' state' w'.
Proof.
  intros Hinv Hn Hstep. destruct n; try congruence;
    [eapply invariant_Route|eapply invariant_Retrieve|eapply invariant_Plan|
     eapply invariant_GenerateSql|eapply invariant_ExecuteSql|eapply invariant_Synthesize|
     eapply invariant_Validate|eapply invariant_RepairSql]; eassumption.
Qed.

Lemma invariant_start question hint (o : W) :
  invariant adapters hint entry_point (initial_state question hint) (fresh o).
Proof.
  constructor; unfold occurrences; simpl; intros;
    solve [lia | congruence | tauto | intuition discriminate].
Qed.

Lemma reachable_invariant question hint o n state w :
  reachable adapters question hint o n state w -> invariant adapters hint n state w.
Proof.
  induction 1; eauto using invariant_start, invariant_step.
Qed.

(** A run follows the steps. *)
Lemma invoke_from_reachable question hint o limit : forall n state w final w',
  reachable adapters question hint o n state w ->
  invoke_from adapters limit n state w = (Done final, w') ->
  reachable adapters question hint o END final w'.
Proof.
  induction limit as [|limit IH]; intros n state w final w' Hreach Hrun.
  - destruct n; simpl in Hrun; try discriminate. now inversion Hrun; subst.
  - destruct n; simpl in Hrun; try (now inversion Hrun; subst).
    all: unfold mbind, M_bind in Hrun;
      match type of Hrun with
      | context [step adapters ?n ?s ?w0] =>
          destruct (step adapters n s w0) as [[[n1 state1]|e] w1] eqn:Hstep;
            [|discriminate];
          eapply IH; [|exact Hrun];
          eapply reachable_step; [exact Hreach|discriminate|exact Hstep]
      end.
Qed.

(** Every step of a run returns, and the rank goes down. *)
Ltac unfold_goal :=
  unfold step, handler, mbind, M_bind, call, record, lift, mret, M_ret, raise; simpl.

Ltac stepped := eexists _, _, _; split; [reflexivity|simpl; lia].

Lemma step_progress hint n state w :
  invariant adapters hint n state w -> n <> END ->
  exists n' state' w',
    step adapters n state w = (Done (n', state'), w') /\ rank n' state' < rank n state.
Proof.
  take_invariant. intros Hn. destruct n; try congruence; unfold_goal.
  - unfold _route_node, Router_forward. unfold_goal.
    destruct (lm_classify adapters (question state) (outside w)) as [classified o].
    simpl. unfold next. simpl. unfold _route_decision. simpl.
    destruct (label_cases _ (Router_normalize_label classified (question state)))
      as [E|[E|E]]; rewrite E; simpl; stepped.
  - unfold _retrieve_node, SimpleRetriever_retrieve. unfold_goal.
    destruct (retriever_retrieve adapters (question state) 3 (outside w)) as [chunks o].
    simpl. stepped.
  - unfold _plan_node, ConstraintExtractor_forward. unfold_goal.
    unfold next. simpl. unfold _needs_sql.
    pose proof (Hroute ltac:(discriminate)) as Hlabel.
    destruct (is_empty (doc_context state)); simpl;
      [|destruct (lm_extract adapters (question state) (doc_context state) (outside w))
          as [constraints o]; simpl];
      destruct (label_cases _ Hlabel) as [E|[E|E]]; rewrite E; simpl; stepped.
  - unfold _generate_sql_node, NL2SQL_forward. unfold_goal.
    destruct (lm_generate adapters _ _ _ (outside w)) as [sql o]. simpl.
    destruct (Hbefore eq_refl) as [Hrc _]. eexists _, _, _; split; [reflexivity|].
    simpl. lia.
  - unfold _execute_sql_node, execute_query, try_except, call_raising. unfold_goal.
    unfold next. simpl. unfold _check_sql_success.
    destruct (sqlite3_execute adapters (sql_query state) (outside w)) as [[cur|message] o];
      simpl.
    + destruct (nonempty (fetchall cur)); simpl;
        [|destruct (Nat.ltb_spec (repair_count state) 2)]; simpl; stepped.
    + destruct (Nat.ltb_spec (repair_count state) 2); simpl; stepped.
  - unfold _synthesize_node, AnswerSynthesizer_forward. unfold_goal.
    destruct (lm_synthesize adapters _ _ _ _ (outside w)) as [[reasoning answer_str] o].
    simpl. stepped.
  - unfold _validate_node. unfold_goal. stepped.
  - unfold _repair_sql_node, SQLRefiner_forward.
    destruct (Hrepair eq_refl) as (Hex & Hrc & result & Hres).
    rewrite Hres. unfold_goal.
    destruct (lm_refine adapters _ _ _ _ (outside w)) as [refined o]. simpl. stepped.
Qed.

(** A run whose limit is at least the rank returns. *)
Lemma invoke_from_returns question hint o limit : forall n state w,
  reachable adapters question hint o n state w ->
  rank n state <= limit ->
  exists final w', invoke_from adapters limit n state w = (Done final, w').
Proof.
  induction limit as [|limit IH]; intros n state w Hreach Hrank.
  - destruct n; simpl in Hrank; try lia.
    + pose proof (reachable_invariant _ _ _ _ _ _ Hreach) as Hinv. revert Hinv.
      take_invariant. simpl in Hrank. lia.
    + pose proof (reachable_invariant _ _ _ _ _ _ Hreach) as Hinv. revert Hinv.
      take_invariant. destruct (Hrepair eq_refl) as (_ & ? & _). simpl in Hrank. lia.
    + eexists _, _. reflexivity.
  - destruct (decide (n = END)) as [->|Hn]; [eexists _, _; reflexivity|].
    destruct (step_progress hint n state w (reachable_invariant _ _ _ _ _ _ Hreach) Hn)
      as (n1 & state1 & w1 & Hstep & Hlt).
    destruct (IH n1 state1 w1) as (final & w' & Hrun).
    + eapply reachable_step; eauto.
    + lia.
    + exists final, w'. destruct n; try congruence; simpl;
        unfold mbind, M_bind; rewrite Hstep; exact Hrun.
Qed.

Lemma invoke_reachable question hint (o : W) final w' :
  invoke adapters (initial_state question hint) (fresh o) = (Done final, w') ->
  reachable adapters question hint o END final w'.
Proof.
  unfold invoke. intros Hrun.
  eapply invoke_from_reachable; [apply reachable_start|exact Hrun].
Qed.

(** The run of a question returns, through configurations that are
    reachable. *)
Lemma invoke_returns question hint (o : W) :
  exists final w',
    invoke adapters (initial_state question hint) (fresh o) = (Done final, w') /\
    reachable adapters question hint o END final w'.
Proof.
  destruct (invoke_from_returns question hint o recursion_limit entry_point
              (initial_state question hint) (fresh o)) as (final & w' & Hrun).
  - apply reachable_start.
  - unfold recursion_limit. simpl. lia.
  - exists final, w'. split; [exact Hrun|]. now apply invoke_reachable.
Qed.

Lemma occurrences_absent e l : ~ In e l -> occurrences e l = 0.
Proof.
  unfold occurrences. induction l as [|x l IH]; simpl; intros H; [reflexivity|].
  rewrite filter_cons. destruct (decide (x = e)) as [->|Hne]; [tauto|]. apply IH. tauto.
Qed.

(** What a step does to [repair_count] and to [route]. *)
Lemma step_counters n state w n' state' w' :
  step adapters n state w = (Done (n', state'), w') ->
  (n = Route -> repair_count state' = 0) /\
  (n = RepairSql -> repair_count state' = repair_count state + 1) /\
  (n <> Route -> n <> RepairSql -> repair_count state' = repair_count state) /\
  (n' = RepairSql -> n = ExecuteSql /\ repair_count state < 2) /\
  (n' = Retrieve -> n = Route /\ (route state' = "rag" \/ route state' = "hybrid")) /\
  (n <> Route -> route state' = route state).
Proof.
  intros Hstep. destruct n; [unfold_step Hstep|unfold_step Hstep| |unfold_step Hstep|
    unfold_step Hstep|unfold_step Hstep|unfold_step Hstep|unfold_step Hstep|unfold_step Hstep].
  - unfold _route_node, Router_forward in Hstep. unfold_step Hstep.
    destruct (lm_classify adapters (question state) (outside w)) as [classified o].
    simpl in Hstep. unfold next in Hstep. simpl in Hstep. unfold _route_decision in Hstep.
    simpl in Hstep.
    destruct (label_cases _ (Router_normalize_label classified (question state)))
      as [E|[E|E]]; rewrite E in *; simpl in Hstep;
      inversion Hstep; subst; clear Hstep; simpl; rewrite ?E;
      repeat split; intros; try congruence; auto.
  - unfold _retrieve_node, SimpleRetriever_retrieve in Hstep. unfold_step Hstep.
    destruct (retriever_retrieve adapters (question state) 3 (outside w)) as [chunks o].
    simpl in Hstep. inversion Hstep; subst; clear Hstep. simpl.
    repeat split; intros; congruence.
  - unfold step, handler, _plan_node, ConstraintExtractor_forward, next, edges, _needs_sql,
      mbind, M_bind, call, record, lift, mret, M_ret in Hstep.
    destruct (is_empty (doc_context state)); cbn [negb] in Hstep; log_simpl;
      [|destruct (lm_extract adapters (question state) (doc_context state) (outside w))
          as [constraints o]];
      log_simpl;
      destruct (in_list (route state) ["sql"; "hybrid"]); simpl in Hstep;
      inversion Hstep; subst; clear Hstep; simpl; repeat split; intros; congruence.
  - unfold _generate_sql_node, NL2SQL_forward in Hstep. unfold_step Hstep.
    destruct (lm_generate adapters _ _ _ (outside w)) as [sql o].
    simpl in Hstep. inversion Hstep; subst; clear Hstep. simpl.
    repeat split; intros; congruence.
  - unfold _execute_sql_node in Hstep. unfold mbind, M_bind in Hstep.
    match type of Hstep with
    | context [execute_query adapters ?s ?w0] =>
        destruct (execute_query adapters s w0) as [r w1] eqn:Hquery
    end.
    destruct (execute_query_inv _ _ _ _ Hquery) as (result & -> & _ & _).
    unfold next, edges, _check_sql_success in Hstep. unfold mret, M_ret in Hstep.
    destruct (success result) eqn:Hs; cbn [negb] in Hstep; log_simpl;
      rewrite ?Hs in Hstep; cbn [andb] in Hstep;
      [destruct (nonempty (rows result)) eqn:Hrows|];
      try destruct (Nat.ltb_spec (repair_count state) 2); simpl in Hstep;
      inversion Hstep; subst; clear Hstep; simpl; repeat split; intros;
      solve [congruence | lia].
  - unfold _synthesize_node, AnswerSynthesizer_forward in Hstep. unfold_step Hstep.
    destruct (lm_synthesize adapters _ _ _ _ (outside w)) as [[reasoning answer_str] o].
    simpl in Hstep. inversion Hstep; subst; clear Hstep. simpl.
    repeat split; intros; congruence.
  - unfold _validate_node in Hstep. unfold_step Hstep.
    inversion Hstep; subst; clear Hstep. simpl. repeat split; intros; congruence.
  - unfold _repair_sql_node, SQLRefiner_forward in Hstep.
    destruct (sql_result state) as [result|]; unfold_step Hstep; [|discriminate].
    destruct (lm_refine adapters _ _ _ _ (outside w)) as [refined o].
    simpl in Hstep. inversion Hstep; subst; clear Hstep. simpl.
    repeat split; intros; congruence.
  - inversion Hstep; subst; clear Hstep. repeat split; intros; congruence.
Qed.

End RunFacts.

(** ** When the parsed answer is [None] *)

Section NoneAnswer.








End NoneAnswer.

(** ** Citations *)

Section CitationFacts.

Lemma In_deduplicate x l : In x (deduplicate l) <-> In x l.
Proof.
  unfold deduplicate.
  rewrite <- !list_elem_of_In, elem_of_elements, elem_of_list_to_set. reflexivity.
Qed.



Lemma significant_spec chunk : significant chunk = true <-> (0.01 < chunk_score chunk)%Q.
Proof.
  unfold significant. rewrite negb_true_iff, <- not_true_iff_false, Qle_bool_iff.
  split; [apply Qnot_le_lt|apply Qlt_not_le].
Qed.

Lemma In_significant citation chunks :
  In citation (map chunk_id (filter (fun chunk => Is_true (significant chunk)) chunks)) <->
  exists chunk, In chunk chunks /\ (0.01 < chunk_score chunk)%Q /\ chunk_id chunk = citation.
Proof.
  rewrite in_map_iff. split.
  - intros (chunk & Hid & Hin). exists chunk.
    apply list_elem_of_In, list_elem_of_filter in Hin as [Hs Hin].
    apply Is_true_true, significant_spec in Hs. apply list_elem_of_In in Hin. auto.
  - intros (chunk & Hin & Hs & Hid). exists chunk. split; [exact Hid|].
    apply list_elem_of_In, list_elem_of_filter. split.
    + now apply Is_true_true, significant_spec.
    + now apply list_elem_of_In.
Qed.


End CitationFacts.



(** ** The claims about runs *)

Section WorkflowClaims.

Context {W : Type} (adapters : Adapters W).




(** C2: [repair_count] is at most 2 in every configuration of a run, and
    below 2 whenever [repair_sql] is about to run; the route node sets it to
    0, [repair_sql] adds one to it, no other node changes it, and only
    [execute_sql] leads to [repair_sql], when it sees a count below 2; the
    run returns with a count of at most 2. *)
Theorem repair_count_bounded (question hint : string) (o : W) :
  (forall n state w,
      reachable adapters question hint o n state w ->
      repair_count state <= 2 /\ (n = RepairSql -> repair_count state < 2)) /\
  (forall n state w n' state' w',
      step adapters n state w = (Done (n', state'), w') ->
      (n = Route -> repair_count state' = 0) /\
      (n = RepairSql -> repair_count state' = repair_count state + 1) /\
      (n <> Route -> n <> RepairSql -> repair_count state' = repair_count state) /\
      (n' = RepairSql -> n = ExecuteSql /\ repair_count state' < 2)) /\
  (exists final w',
      invoke adapters (initial_state question hint) (fresh o) = (Done final, w') /\
      repair_count final <= 2).
Proof.
  split; [|split].
  - intros n state w Hreach.
    pose proof (reachable_invariant adapters _ _ _ _ _ _ Hreach)
      as [_ _ Hcount _ _ _ Hrepair _ _ _ _ _ _].
    split; [exact Hcount|]. intros Hn. now destruct (Hrepair Hn) as (_ & Hlt & _).
  - intros n state w n' state' w' Hstep.
    destruct (step_counters adapters _ _ _ _ _ _ Hstep) as (H1 & H2 & H3 & H4 & _).
    split; [exact H1|]. split; [exact H2|]. split; [exact H3|].
    intros Hn'. destruct (H4 Hn') as [-> Hlt]. split; [reflexivity|].
    rewrite H3; [exact Hlt|discriminate..].
  - destruct (invoke_returns adapters question hint o) as (final & w' & Hrun & Hreach).
    exists final, w'. split; [exact Hrun|].
    now pose proof (reachable_invariant adapters _ _ _ _ _ _ Hreach)
      as [_ _ Hcount _ _ _ _ _ _ _ _ _ _].
Qed.

(** C6: in a run whose route is [sql] the retrieve node never runs and the
    retrieval adapter is never called.  Only the route node leads to
    retrieve, and only with the route [rag] or [hybrid]; with the route [sql]
    it leads to plan; no later node changes the route. *)
Theorem sql_route_never_retrieves (question hint : string) (o : W) :
  (forall n state w,
      reachable adapters question hint o n state w ->
      n = Retrieve \/ In (Ran Retrieve) (log w) \/ In (Called Retrieval) (log w) ->
      route state = "rag" \/ route state = "hybrid") /\
  (exists final w',
      invoke adapters (initial_state question hint) (fresh o) = (Done final, w') /\
      (route final = "sql" ->
       ~ In (Ran Retrieve) (log w') /\ occurrences (Called Retrieval) (log w') = 0)) /\
  (forall state, route state = "sql" -> next Route state = Done Plan) /\
  (forall state, route state = "rag" \/ route state = "hybrid" ->
                 next Route state = Done Retrieve) /\
  (forall n state w n' state' w',
      step adapters n state w = (Done (n', state'), w') ->
      (n' = Retrieve -> n = Route /\ (route state' = "rag" \/ route state' = "hybrid")) /\
      (n <> Route -> route state' = route state)).
Proof.
  assert (Hinv : forall n state w,
             reachable adapters question hint o n state w ->
             n = Retrieve \/ In (Ran Retrieve) (log w) \/ In (Called Retrieval) (log w) ->
             route state = "rag" \/ route state = "hybrid").
  { intros n state w Hreach.
    now pose proof (reachable_invariant adapters _ _ _ _ _ _ Hreach)
      as [_ _ _ _ _ _ _ _ _ Hretrieve _ _ _]. }
  split; [exact Hinv|]. split; [|split; [|split]].
  - destruct (invoke_returns adapters question hint o) as (final & w' & Hrun & Hreach).
    exists final, w'. split; [exact Hrun|]. intros Hsql.
    assert (Hno : forall e, e = Ran Retrieve \/ e = Called Retrieval -> ~ In e (log w')).
    { intros e He Hin.
      destruct (Hinv _ _ _ Hreach) as [H|H]; [|congruence..].
      destruct He as [-> | ->]; auto. }
    split; [apply Hno; auto|]. apply occurrences_absent, Hno. auto.
  - intros state Hsql. unfold next. simpl. unfold _route_decision. now rewrite Hsql.
  - intros state [H|H]; unfold next; simpl; unfold _route_decision; now rewrite H.
  - intros n state w n' state' w' Hstep.
    destruct (step_counters adapters _ _ _ _ _ _ Hstep) as (_ & _ & _ & _ & H5 & H6).
    auto.
Qed.

(** C10: when the last query of a run failed, the citations are exactly the
    identifiers of the retrieved fragments whose score is above 0.01; the
    failed result lists no table. *)
Theorem failed_query_cites_fragments_only (question hint : string) (o : W)
    (final : AgentState) (w' : world W) (result : QueryResult) :
  invoke adapters (initial_state question hint) (fresh o) = (Done final, w') ->
  sql_result final = Some result ->
  success result = false ->
  tables_used result = Some [] /\
  forall citation,
    In citation (citations final) <->
    exists chunk,
      In chunk (retrieved_chunks final) /\ (0.01 < chunk_score chunk)%Q /\
      chunk_id chunk = citation.
Proof.
  intros Hrun Hres Hfailed.
  assert (Hreach : reachable adapters question hint o END final w').
  { now apply invoke_reachable. }
  pose proof (reachable_invariant adapters _ _ _ _ _ _ Hreach)
    as [_ _ _ _ _ _ _ _ _ _ Hresult _ Hsynth].
  destruct (Hsynth eq_refl) as (_ & Hcit & _). split.
  - destruct (Hresult _ Hres) as (sql & w0 & w1 & Hquery).
    destruct (execute_query_inv adapters _ _ _ _ Hquery) as (r & [= <-] & _ & Hempty).
    now destruct (Hempty Hfailed) as (_ & _ & Htables).
  - intros citation. rewrite Hcit, In_deduplicate. unfold collected.
    rewrite Hres, Hfailed, app_nil_r. apply In_significant.
Qed.

End WorkflowClaims.

(** The run against the failing adapter: its last result is a failure, and
    the theorem applies to it. *)
Lemma failed_query_cites_fragments_only_witness :
  tables_used failing_result = Some [] /\
  forall citation,
    In citation (citations failing_final) <->
    exists chunk,
      In chunk (retrieved_chunks failing_final) /\ (0.01 < chunk_score chunk)%Q /\
      chunk_id chunk = citation.
Proof.
  apply (failed_query_cites_fragments_only (failing_adapters "hybrid" "42")
           "Count total orders" "int" tt failing_final (snd failing_run) failing_result);
    vm_compute; reflexivity.
Defined.

